(** * make-bcache / bcache-check: a shallow embedding in Rocq

    This development embeds the superblock writer of make-bcache
    ([write_sb], [reset_backing_sb], [hatoi_validate], [main]) and the
    topology resolver of bcache-check ([get_parent_device]).

    Conventions.
    - Integers of the C code are [Z]; the wrap-around of each C type is
      written out where the code stores into a narrower field.
    - Bytes are [Z] values in [0, 256); a device is a byte map [Z -> Z].
    - The process exits on every error: the effectful code runs in a small
      state monad with an [Exit] outcome; the state records the uuid supply
      counter and the trace of all [pwrite] calls (device, offset, payload).
      The current content of a device is its initial content with the
      trace's writes applied in order. *)

From Stdlib Require Import String Ascii ZArith List Bool Lia.
Import ListNotations.
Open Scope Z_scope.

(* ------------------------------------------------------------------ *)
(** ** Constants of bcache.h *)

(** Modelled from the spec: bcache.h (the on-disk layout header) is not
    part of the sources.  The values below are those of the bcache on-disk
    format: the primary superblock lives at sector [SB_SECTOR]; copies are
    laid out at a fixed stride of [SB_SECTOR] sectors, copy [0] being the
    primary one. *)
Definition SB_SECTOR : Z := 8.
Definition SB_START : Z := Z.shiftl SB_SECTOR 9.
Definition SB_LABEL_SIZE : nat := 32.
Definition SB_JOURNAL_BUCKETS : Z := 256.
Definition BDEV_DATA_START_DEFAULT : Z := 16.

Definition BCACHE_SB_VERSION_CDEV : Z := 0.
Definition BCACHE_SB_VERSION_BDEV : Z := 1.
Definition BCACHE_SB_VERSION_CDEV_WITH_UUID : Z := 3.
Definition BCACHE_SB_VERSION_BDEV_WITH_OFFSET : Z := 4.

Definition CACHE_MODE_WRITETHROUGH : Z := 0.
Definition CACHE_MODE_WRITEBACK : Z := 1.
Definition BDEV_STATE_NONE : Z := 0.
Definition BDEV_STATE_CLEAN : Z := 1.
Definition BDEV_STATE_DIRTY : Z := 2.

(** Modelled from the spec: offset in bytes of superblock copy [idx]
    (fixed stride, copy 0 at [SB_START]). *)
Definition SB_OFFSET (idx : Z) : Z := Z.shiftl (SB_SECTOR + idx * SB_SECTOR) 9.

Definition bcache_magic : list Z :=
  [198; 133; 115; 246; 78; 26; 69; 202; 130; 101; 245; 127; 72; 186; 109; 129].

Definition U16 : Z := 2 ^ 16.
Definition U32 : Z := 2 ^ 32.
Definition U64 : Z := 2 ^ 64.
Definition USHRT_MAX : Z := 65535.

(** Conversion of a C [int] value to [uint64_t]. *)
Definition to_u64 (x : Z) : Z := x mod U64.

(** Wrap-around of a C [int] (two's complement, 32 bits). *)
Definition to_int (x : Z) : Z := (x + 2 ^ 31) mod U32 - 2 ^ 31.

(* ------------------------------------------------------------------ *)
(** ** struct cache_sb *)

(** The fields of [struct cache_sb] in declaration order.  The C union
    puts [data_offset] (backing devices) and [nbuckets] (cache devices)
    in the same 8 bytes: here it is the single field [sb_data_offset],
    read as [sb_nbuckets] for cache devices. *)
Record cache_sb := mk_sb {
  sb_csum : Z;
  sb_offset : Z;
  sb_version : Z;
  sb_magic : list Z;
  sb_uuid : list Z;
  sb_set_uuid : list Z;
  sb_label : list Z;
  sb_flags : Z;
  sb_seq : Z;
  sb_pad : list Z;
  sb_data_offset : Z;
  sb_block_size : Z;
  sb_bucket_size : Z;
  sb_nr_in_set : Z;
  sb_nr_this_dev : Z;
  sb_last_mount : Z;
  sb_first_bucket : Z;
  sb_njournal_buckets : Z;
  sb_d : list Z
}.

Definition sb_nbuckets (sb : cache_sb) : Z := sb_data_offset sb.

(** [memset(&sb, 0, sizeof(struct cache_sb))] *)
Definition sb_zero : cache_sb :=
  mk_sb 0 0 0 (repeat 0 16) (repeat 0 16) (repeat 0 16) (repeat 0 SB_LABEL_SIZE)
        0 0 (repeat 0 8) 0 0 0 0 0 0 0 0 (repeat 0 (Z.to_nat SB_JOURNAL_BUCKETS)).

(** Field assignments ([sb.f = v]); each stores into the field's C type. *)
Definition with_csum (s : cache_sb) (v : Z) : cache_sb :=
  let '(mk_sb _ a2 a3 a4 a5 a6 a7 a8 a9 a10 a11 a12 a13 a14 a15 a16 a17 a18 a19) := s in
  mk_sb (v mod U64) a2 a3 a4 a5 a6 a7 a8 a9 a10 a11 a12 a13 a14 a15 a16 a17 a18 a19.
Definition with_offset (s : cache_sb) (v : Z) : cache_sb :=
  let '(mk_sb a1 _ a3 a4 a5 a6 a7 a8 a9 a10 a11 a12 a13 a14 a15 a16 a17 a18 a19) := s in
  mk_sb a1 (v mod U64) a3 a4 a5 a6 a7 a8 a9 a10 a11 a12 a13 a14 a15 a16 a17 a18 a19.
Definition with_version (s : cache_sb) (v : Z) : cache_sb :=
  let '(mk_sb a1 a2 _ a4 a5 a6 a7 a8 a9 a10 a11 a12 a13 a14 a15 a16 a17 a18 a19) := s in
  mk_sb a1 a2 (v mod U64) a4 a5 a6 a7 a8 a9 a10 a11 a12 a13 a14 a15 a16 a17 a18 a19.
Definition with_magic (s : cache_sb) (v : list Z) : cache_sb :=
  let '(mk_sb a1 a2 a3 _ a5 a6 a7 a8 a9 a10 a11 a12 a13 a14 a15 a16 a17 a18 a19) := s in
  mk_sb a1 a2 a3 v a5 a6 a7 a8 a9 a10 a11 a12 a13 a14 a15 a16 a17 a18 a19.
Definition with_uuid (s : cache_sb) (v : list Z) : cache_sb :=
  let '(mk_sb a1 a2 a3 a4 _ a6 a7 a8 a9 a10 a11 a12 a13 a14 a15 a16 a17 a18 a19) := s in
  mk_sb a1 a2 a3 a4 v a6 a7 a8 a9 a10 a11 a12 a13 a14 a15 a16 a17 a18 a19.
Definition with_set_uuid (s : cache_sb) (v : list Z) : cache_sb :=
  let '(mk_sb a1 a2 a3 a4 a5 _ a7 a8 a9 a10 a11 a12 a13 a14 a15 a16 a17 a18 a19) := s in
  mk_sb a1 a2 a3 a4 a5 v a7 a8 a9 a10 a11 a12 a13 a14 a15 a16 a17 a18 a19.
Definition with_flags (s : cache_sb) (v : Z) : cache_sb :=
  let '(mk_sb a1 a2 a3 a4 a5 a6 a7 _ a9 a10 a11 a12 a13 a14 a15 a16 a17 a18 a19) := s in
  mk_sb a1 a2 a3 a4 a5 a6 a7 (v mod U64) a9 a10 a11 a12 a13 a14 a15 a16 a17 a18 a19.
Definition with_data_offset (s : cache_sb) (v : Z) : cache_sb :=
  let '(mk_sb a1 a2 a3 a4 a5 a6 a7 a8 a9 a10 _ a12 a13 a14 a15 a16 a17 a18 a19) := s in
  mk_sb a1 a2 a3 a4 a5 a6 a7 a8 a9 a10 (v mod U64) a12 a13 a14 a15 a16 a17 a18 a19.
Definition with_nbuckets := with_data_offset.
Definition with_block_size (s : cache_sb) (v : Z) : cache_sb :=
  let '(mk_sb a1 a2 a3 a4 a5 a6 a7 a8 a9 a10 a11 _ a13 a14 a15 a16 a17 a18 a19) := s in
  mk_sb a1 a2 a3 a4 a5 a6 a7 a8 a9 a10 a11 (v mod U16) a13 a14 a15 a16 a17 a18 a19.
Definition with_bucket_size (s : cache_sb) (v : Z) : cache_sb :=
  let '(mk_sb a1 a2 a3 a4 a5 a6 a7 a8 a9 a10 a11 a12 _ a14 a15 a16 a17 a18 a19) := s in
  mk_sb a1 a2 a3 a4 a5 a6 a7 a8 a9 a10 a11 a12 (v mod U16) a14 a15 a16 a17 a18 a19.
Definition with_nr_in_set (s : cache_sb) (v : Z) : cache_sb :=
  let '(mk_sb a1 a2 a3 a4 a5 a6 a7 a8 a9 a10 a11 a12 a13 _ a15 a16 a17 a18 a19) := s in
  mk_sb a1 a2 a3 a4 a5 a6 a7 a8 a9 a10 a11 a12 a13 (v mod U16) a15 a16 a17 a18 a19.
Definition with_first_bucket (s : cache_sb) (v : Z) : cache_sb :=
  let '(mk_sb a1 a2 a3 a4 a5 a6 a7 a8 a9 a10 a11 a12 a13 a14 a15 a16 _ a18 a19) := s in
  mk_sb a1 a2 a3 a4 a5 a6 a7 a8 a9 a10 a11 a12 a13 a14 a15 a16 (v mod U16) a18 a19.

(** BITMASK(name, struct cache_sb, flags, offset, size) of bcache.h:
    the getter masks, the setter clears the bit range and ors [v << offset]
    in without masking [v]. *)
Definition mask64 : Z := U64 - 1.
Definition get_bits (flags off size : Z) : Z :=
  Z.land (Z.shiftr flags off) (Z.ones size).
Definition set_bits (flags off size v : Z) : Z :=
  Z.lor (Z.land flags (Z.lxor mask64 (Z.shiftl (Z.ones size) off)))
        (Z.shiftl v off mod U64).

Definition BDEV_CACHE_MODE (s : cache_sb) : Z := get_bits (sb_flags s) 0 4.
Definition SET_BDEV_CACHE_MODE (s : cache_sb) (v : Z) : cache_sb :=
  with_flags s (set_bits (sb_flags s) 0 4 v).
Definition BDEV_STATE (s : cache_sb) : Z := get_bits (sb_flags s) 61 2.
Definition SET_BDEV_STATE (s : cache_sb) (v : Z) : cache_sb :=
  with_flags s (set_bits (sb_flags s) 61 2 v).
Definition SET_CACHE_DISCARD (s : cache_sb) (v : Z) : cache_sb :=
  with_flags s (set_bits (sb_flags s) 1 1 v).
Definition SET_CACHE_REPLACEMENT (s : cache_sb) (v : Z) : cache_sb :=
  with_flags s (set_bits (sb_flags s) 2 3 v).

Definition SB_IS_BDEV (s : cache_sb) : bool :=
  (sb_version s =? BCACHE_SB_VERSION_BDEV)
  || (sb_version s =? BCACHE_SB_VERSION_BDEV_WITH_OFFSET).

(* ------------------------------------------------------------------ *)
(** ** The on-disk bytes of a cache_sb (x86-64, little endian) *)

Fixpoint le_bytes (n : nat) (x : Z) : list Z :=
  match n with
  | O => []
  | S n' => x mod 256 :: le_bytes n' (x / 256)
  end.

Fixpoint le_val (l : list Z) : Z :=
  match l with
  | [] => 0
  | b :: l' => b + 256 * le_val l'
  end.

(** A fixed-size byte array [uint8_t a[n]]. *)
Definition byte_array (n : nat) (l : list Z) : list Z :=
  map (fun b => b mod 256) (firstn n (l ++ repeat 0 n)).

(** A fixed-size array [uint64_t a[n]]. *)
Definition u64_list (n : nat) (l : list Z) : list Z :=
  map (fun x => x mod U64) (firstn n (l ++ repeat 0 n)).
Definition u64_array (n : nat) (l : list Z) : list Z :=
  concat (map (le_bytes 8) (u64_list n l)).

Definition serialize (s : cache_sb) : list Z :=
  le_bytes 8 (sb_csum s) ++ le_bytes 8 (sb_offset s) ++ le_bytes 8 (sb_version s)
  ++ byte_array 16 (sb_magic s) ++ byte_array 16 (sb_uuid s)
  ++ byte_array 16 (sb_set_uuid s) ++ byte_array SB_LABEL_SIZE (sb_label s)
  ++ le_bytes 8 (sb_flags s) ++ le_bytes 8 (sb_seq s) ++ u64_array 8 (sb_pad s)
  ++ le_bytes 8 (sb_data_offset s) ++ le_bytes 2 (sb_block_size s)
  ++ le_bytes 2 (sb_bucket_size s) ++ le_bytes 2 (sb_nr_in_set s)
  ++ le_bytes 2 (sb_nr_this_dev s) ++ le_bytes 4 (sb_last_mount s)
  ++ le_bytes 2 (sb_first_bucket s) ++ le_bytes 2 (sb_njournal_buckets s)
  ++ u64_array (Z.to_nat SB_JOURNAL_BUCKETS) (sb_d s).

(** [sizeof(struct cache_sb)] *)
Definition sizeof_cache_sb : Z := 208 + 8 * SB_JOURNAL_BUCKETS.

Definition take (n : nat) (l : list Z) : list Z * list Z := (firstn n l, skipn n l).

Fixpoint u64s (k : nat) (l : list Z) : list Z :=
  match k with
  | O => []
  | S k' => le_val (firstn 8 l) :: u64s k' (skipn 8 l)
  end.

(** The record [pread] fills from [sizeof(struct cache_sb)] bytes. *)
Definition deserialize (l : list Z) : cache_sb :=
  let '(csum, l) := take 8 l in
  let '(offset, l) := take 8 l in
  let '(version, l) := take 8 l in
  let '(magic, l) := take 16 l in
  let '(uuid, l) := take 16 l in
  let '(set_uuid_b, l) := take 16 l in
  let '(label, l) := take SB_LABEL_SIZE l in
  let '(flags, l) := take 8 l in
  let '(seq, l) := take 8 l in
  let '(pad, l) := take 64 l in
  let '(data_offset, l) := take 8 l in
  let '(block_size, l) := take 2 l in
  let '(bucket_size, l) := take 2 l in
  let '(nr_in_set, l) := take 2 l in
  let '(nr_this_dev, l) := take 2 l in
  let '(last_mount, l) := take 4 l in
  let '(first_bucket, l) := take 2 l in
  let '(njournal, l) := take 2 l in
  let '(d, _) := take (8 * Z.to_nat SB_JOURNAL_BUCKETS) l in
  mk_sb (le_val csum) (le_val offset) (le_val version) magic uuid set_uuid_b label
        (le_val flags) (le_val seq) (u64s 8 pad) (le_val data_offset)
        (le_val block_size) (le_val bucket_size) (le_val nr_in_set)
        (le_val nr_this_dev) (le_val last_mount) (le_val first_bucket)
        (le_val njournal) (u64s (Z.to_nat SB_JOURNAL_BUCKETS) d).

(** Every field reduced to its C type: what a write then a read yields. *)
Definition sb_norm (s : cache_sb) : cache_sb :=
  mk_sb (sb_csum s mod U64) (sb_offset s mod U64) (sb_version s mod U64)
        (byte_array 16 (sb_magic s)) (byte_array 16 (sb_uuid s))
        (byte_array 16 (sb_set_uuid s)) (byte_array SB_LABEL_SIZE (sb_label s))
        (sb_flags s mod U64) (sb_seq s mod U64) (u64_list 8 (sb_pad s))
        (sb_data_offset s mod U64) (sb_block_size s mod U16)
        (sb_bucket_size s mod U16) (sb_nr_in_set s mod U16)
        (sb_nr_this_dev s mod U16) (sb_last_mount s mod U32)
        (sb_first_bucket s mod U16) (sb_njournal_buckets s mod U16)
        (u64_list (Z.to_nat SB_JOURNAL_BUCKETS) (sb_d s)).

(** [memcmp(a, b, n) == 0] *)
Fixpoint bytes_eqb (a b : list Z) : bool :=
  match a, b with
  | [], [] => true
  | x :: a', y :: b' => (x =? y) && bytes_eqb a' b'
  | _, _ => false
  end.

(** The bytes of a C string literal (without its terminating NUL). *)
Definition str_bytes (s : string) : list Z :=
  map (fun c => Z.of_nat (nat_of_ascii c)) (list_ascii_of_string s).

(* ------------------------------------------------------------------ *)
(** ** Devices, the pwrite trace and the exit monad *)

(** What the program can observe of a device node: whether
    [open(O_RDWR|O_EXCL)] succeeds, its size in bytes, its initial bytes,
    the answer of the blkid probe ([None]: the probe could not be set up;
    [Some r]: [blkid_do_probe] returned [r], [0] meaning a signature was
    found), and what [stat]/[BLKSSZGET] report. *)
Record device := mk_dev {
  d_open_ok : bool;
  d_size : Z;
  d_data : Z -> Z;
  d_probe : option Z;
  d_stat_ok : bool;
  d_is_blk : bool;
  d_logical_block_size : Z;
  d_st_blksize : Z
}.

(** The buffer passed to one [pwrite]. *)
Inductive payload :=
| PZeros (len : Z)
| PMarker (s : string)
| PSb (sb : cache_sb).

Definition payload_bytes (p : payload) : list Z :=
  match p with
  | PZeros len => repeat 0 (Z.to_nat len)
  | PMarker s => str_bytes s
  | PSb sb => serialize sb
  end.

Record write := mk_write { w_dev : string; w_off : Z; w_payload : payload }.

Definition apply_write (d : Z -> Z) (off : Z) (data : list Z) : Z -> Z :=
  let n := Z.of_nat (length data) in
  fun a => if (off <=? a) && (a <? off + n)
           then nth (Z.to_nat (a - off)) data 0 else d a.

Definition apply_trace (dev : string) (tr : list write) (d : Z -> Z) : Z -> Z :=
  fold_left (fun d w => if String.eqb (w_dev w) dev
                        then apply_write d (w_off w) (payload_bytes (w_payload w))
                        else d) tr d.

(** The [n] bytes at [off], each read as an [unsigned char]. *)
Definition read_bytes (d : Z -> Z) (off : Z) (n : nat) : list Z :=
  map (fun k => d (off + Z.of_nat k) mod 256) (seq 0 n).

Record state := mk_state {
  st_devs : string -> device;
  st_gen : nat;
  st_trace : list write
}.

(** The current bytes of a device. *)
Definition disk (s : state) (dev : string) : Z -> Z :=
  apply_trace dev (st_trace s) (d_data (st_devs s dev)).

(** The [sizeof(struct cache_sb)] bytes of superblock copy [idx] of
    [dev], and the record [pread] fills from them. *)
Definition copy_bytes (s : state) (dev : string) (idx : Z) : list Z :=
  read_bytes (disk s dev) (SB_OFFSET idx) (Z.to_nat sizeof_cache_sb).
Definition read_copy (s : state) (dev : string) (idx : Z) : cache_sb :=
  deserialize (copy_bytes s dev idx).

Inductive outcome (A : Type) :=
| Ok (a : A)
| Exit.
Arguments Ok {A} a.
Arguments Exit {A}.

Definition M (A : Type) : Type := state -> outcome A * state.

Definition ret {A} (a : A) : M A := fun s => (Ok a, s).
Definition bind {A B} (m : M A) (k : A -> M B) : M B :=
  fun s => match m s with
           | (Ok a, s') => k a s'
           | (Exit, s') => (Exit, s')
           end.
(** [exit(EXIT_FAILURE)] *)
Definition exit_failure {A} : M A := fun s => (Exit, s).

Notation "x <- m ;; k" := (bind m (fun x => k))
  (at level 61, m at next level, right associativity).
Notation "m ;;; k" := (bind m (fun _ => k))
  (at level 61, right associativity).

Definition when (b : bool) (m : M unit) : M unit := if b then m else ret tt.

(** [open(dev, O_RDWR|O_EXCL)], exiting when it fails. *)
Definition open_excl (dev : string) : M unit :=
  fun s => if d_open_ok (st_devs s dev) then (Ok tt, s) else (Exit, s).

(** [if (pread(fd, &sb, sizeof(sb), off) != sizeof(sb)) exit(EXIT_FAILURE);] *)
Definition pread_sb (dev : string) (off : Z) : M cache_sb :=
  fun s => if (0 <=? off) && (off + sizeof_cache_sb <=? d_size (st_devs s dev))
           then (Ok (deserialize (read_bytes (disk s dev) off (Z.to_nat sizeof_cache_sb))), s)
           else (Exit, s).

(** [if (pwrite(fd, buf, len, off) != len) exit(EXIT_FAILURE);]: the write
    is recorded; a write running past the end of the device is short and
    the process exits. *)
Definition pwrite (dev : string) (off : Z) (p : payload) : M unit :=
  fun s =>
    let s' := mk_state (st_devs s) (st_gen s) (st_trace s ++ [mk_write dev off p]) in
    if (0 <=? off) && (off + Z.of_nat (length (payload_bytes p)) <=? d_size (st_devs s dev))
    then (Ok tt, s') else (Exit, s').

(** [getblocks(fd)]: the size in 512-byte sectors. *)
Definition getblocks (dev : string) : M Z :=
  fun s => (Ok (to_u64 (d_size (st_devs s dev) / 512)), s).

(** The blkid probe of [write_sb]: exit when it cannot be set up or when
    [blkid_do_probe] returns 0 (a signature was found). *)
Definition blkid_check (dev : string) : M unit :=
  fun s => match d_probe (st_devs s dev) with
           | None => (Exit, s)
           | Some r => if r =? 0 then (Exit, s) else (Ok tt, s)
           end.

Section Make_bcache.

(** The external collaborators: the checksum of the superblock bytes
    (crc64, a black box) and the uuid library's generator, seen as a
    supply of values consumed in order. *)
Variable checksum : list Z -> Z.
Variable uuid_gen : nat -> list Z.

(** [csum_set(&sb)]: the checksum of the record's bytes after the [csum]
    field. *)
Definition csum_set (sb : cache_sb) : Z := checksum (skipn 8 (serialize sb)) mod U64.

(** [uuid_generate(u)] *)
Definition uuid_generate : M (list Z) :=
  fun s => (Ok (byte_array 16 (uuid_gen (st_gen s))),
            mk_state (st_devs s) (S (st_gen s)) (st_trace s)).

Definition is_bcache_magic (sb : cache_sb) : bool :=
  bytes_eqb (sb_magic sb) bcache_magic.

(** The loop writing the secondary superblocks of a backing device:
    [for (i = 1; i < sb_num; i++)], [n] iterations left, [sb] reused. *)
Fixpoint write_secondaries (dev : string) (sb : cache_sb) (i : Z) (n : nat) : M unit :=
  match n with
  | O => ret tt
  | S n' =>
      let sb := with_offset sb SB_SECTOR in
      u <- uuid_generate ;;
      let sb := with_uuid sb u in
      su <- uuid_generate ;;
      let sb := with_set_uuid sb su in
      let sb := with_csum sb (csum_set sb) in
      pwrite dev (SB_OFFSET i) (PSb sb) ;;;
      write_secondaries dev sb (i + 1) n'
  end.

(** [bucket_to_offset(&sb, b)] of bcache.h (modelled from the spec: the
    byte offset of bucket [b]). *)
Definition bucket_to_offset (sb : cache_sb) (b : Z) : Z :=
  Z.shiftl (b * sb_bucket_size sb) 9.

(** [while (offset < end) { len = min(end - offset, SB_START); ... }];
    [fuel] bounds the iterations (each but the last writes [SB_START]
    bytes, so [(end - offset) / SB_START + 1] is enough). *)
Fixpoint zero_range (dev : string) (offset end_ : Z) (fuel : nat) : M unit :=
  match fuel with
  | O => ret tt
  | S f =>
      if offset <? end_ then
        let len := Z.min (end_ - offset) SB_START in
        pwrite dev offset (PZeros len) ;;;
        zero_range dev (offset + len) end_ f
      else ret tt
  end.

Fixpoint zero_buckets (dev : string) (sb : cache_sb) (i : Z) (n : nat) : M unit :=
  match n with
  | O => ret tt
  | S n' =>
      let offset := bucket_to_offset sb i in
      let end_ := bucket_to_offset sb (i + 1) in
      zero_range dev offset end_ (Z.to_nat ((end_ - offset) / SB_START + 1)) ;;;
      zero_buckets dev sb (i + 1) n'
  end.

(** Zero the cache device journal:
    [for (i = sb.first_bucket; i < end; i++)] with
    [end = min(sb.nbuckets, sb.first_bucket + SB_JOURNAL_BUCKETS)]. *)
Definition zero_journal (dev : string) (sb : cache_sb) : M unit :=
  let end_ := Z.min (sb_nbuckets sb) (sb_first_bucket sb + SB_JOURNAL_BUCKETS) in
  zero_buckets dev sb (sb_first_bucket sb) (Z.to_nat (end_ - sb_first_bucket sb)).

(** The record [write_sb] builds before its [SB_IS_BDEV] test (its lines
    from [memset] to the [block_size] assignment). *)
Definition new_sb (block_size bucket_size : Z) (set_uuid : list Z) (bdev : bool)
    (bdev_uuid : list Z) : cache_sb :=
  let sb := sb_zero in
  let sb := with_offset sb SB_SECTOR in
  let sb := with_version sb (if bdev then BCACHE_SB_VERSION_BDEV
                             else BCACHE_SB_VERSION_CDEV) in
  let sb := with_magic sb bcache_magic in
  let sb := with_uuid sb (byte_array 16 bdev_uuid) in
  let sb := with_set_uuid sb (byte_array 16 set_uuid) in
  let sb := with_bucket_size sb bucket_size in
  let sb := with_block_size sb block_size in
  sb.

(** The backing-device fields: state, cache mode, data offset. *)
Definition backing_setup (sb : cache_sb) (writeback dirty : bool) (data_offset : Z) : cache_sb :=
  let sb := if dirty then SET_BDEV_STATE sb BDEV_STATE_DIRTY else sb in
  let sb := SET_BDEV_CACHE_MODE sb
              (if writeback then CACHE_MODE_WRITEBACK else CACHE_MODE_WRITETHROUGH) in
  if negb (data_offset =? BDEV_DATA_START_DEFAULT)
  then with_data_offset (with_version sb BCACHE_SB_VERSION_BDEV_WITH_OFFSET) data_offset
  else sb.

(** The cache-device geometry: bucket count, set size, first bucket. *)
Definition cache_geometry (sb : cache_sb) (blocks : Z) : cache_sb :=
  let sb := with_nbuckets sb (blocks / sb_bucket_size sb) in
  let sb := with_nr_in_set sb 1 in
  with_first_bucket sb (23 / sb_bucket_size sb + 1).

(** The cache-device flags: discard and replacement policy. *)
Definition cache_flags (sb : cache_sb) (discard : bool) (cache_replacement_policy : Z) : cache_sb :=
  let sb := SET_CACHE_DISCARD sb (Z.b2z discard) in
  SET_CACHE_REPLACEMENT sb cache_replacement_policy.

(** [write_sb].  The global flags [alcubierre_dev] and
    [skip_udev_register] are passed explicitly.  The [printf] reports are
    not modelled. *)
Definition write_sb (alcubierre_dev skip_udev_register : bool)
    (dev : string) (block_size bucket_size : Z)
    (writeback discard wipe_bcache : bool)
    (cache_replacement_policy : Z) (data_offset : Z)
    (set_uuid : list Z) (bdev : bool) (bdev_uuid : list Z)
    (dirty : bool) (sb_num : Z) : M unit :=
  open_excl dev ;;;
  sb <- pread_sb dev SB_START ;;
  when (is_bcache_magic sb && negb wipe_bcache) exit_failure ;;;
  blkid_check dev ;;;
  let sb := new_sb block_size bucket_size set_uuid bdev bdev_uuid in
  sb <- (if SB_IS_BDEV sb then
           let sb := backing_setup sb writeback dirty data_offset in
           if sb_data_offset sb
                <? to_u64 (to_int (BDEV_DATA_START_DEFAULT + sb_num * SB_SECTOR))
           then exit_failure
           else ret sb
         else
           blocks <- getblocks dev ;;
           (* a division by a zero bucket size traps *)
           if sb_bucket_size sb =? 0 then exit_failure else
           let sb := cache_geometry sb blocks in
           if sb_nbuckets sb <? Z.shiftl 1 7 then exit_failure else
           ret (cache_flags sb discard cache_replacement_policy)) ;;
  let sb := with_csum sb (csum_set sb) in
  (* Zero start of disk *)
  pwrite dev 0 (PZeros SB_START) ;;;
  (if alcubierre_dev then pwrite dev 0 (PMarker "alcubierre")
   else if skip_udev_register then pwrite dev 0 (PMarker "##skipudev")
   else ret tt) ;;;
  (* Write superblock *)
  pwrite dev SB_START (PSb sb) ;;;
  (if SB_IS_BDEV sb then write_secondaries dev sb 1 (Z.to_nat (sb_num - 1))
   else zero_journal dev sb) ;;;
  (* fsync, close *)
  ret tt.

(** The record [reset_backing_sb] builds from the saved parameters
    (its lines from [memset] to the [data_offset] assignment). *)
Definition rebuild_backing_sb (block_size bucket_size data_offset : Z)
    (set_uuid bdev_uuid : list Z) : cache_sb :=
  let sb := sb_zero in
  let sb := with_offset sb SB_SECTOR in
  let sb := with_version sb BCACHE_SB_VERSION_BDEV in
  let sb := with_magic sb bcache_magic in
  let sb := with_uuid sb (byte_array 16 bdev_uuid) in
  let sb := with_set_uuid sb (byte_array 16 set_uuid) in
  let sb := with_bucket_size sb bucket_size in
  let sb := with_block_size sb block_size in
  let sb := if negb (data_offset =? BDEV_DATA_START_DEFAULT)
            then with_data_offset
                   (with_version sb BCACHE_SB_VERSION_BDEV_WITH_OFFSET) data_offset
            else sb in
  sb.

(** [reset_backing_sb]. *)
Definition reset_backing_sb (dev : string) (wipe_bcache : bool) (sb_idx : Z)
    (set_uuid bdev_uuid : list Z) : M unit :=
  open_excl dev ;;;
  sb <- pread_sb dev (SB_OFFSET sb_idx) ;;
  (if is_bcache_magic sb then when (negb wipe_bcache) exit_failure
   else exit_failure) ;;;
  when (negb (SB_IS_BDEV sb)) exit_failure ;;;
  (* save some old parameter *)
  let block_size := sb_block_size sb in
  let bucket_size := sb_bucket_size sb in
  let data_offset := sb_data_offset sb in
  when (bytes_eqb (byte_array 16 (sb_uuid sb)) (byte_array 16 bdev_uuid))
    exit_failure ;;;
  when (bytes_eqb (byte_array 16 (sb_set_uuid sb)) (byte_array 16 set_uuid))
    exit_failure ;;;
  let sb := rebuild_backing_sb block_size bucket_size data_offset set_uuid bdev_uuid in
  when (negb (sb_data_offset sb =? data_offset)) exit_failure ;;;
  let sb := with_csum sb (csum_set sb) in
  (* Write superblock *)
  pwrite dev (SB_OFFSET sb_idx) (PSb sb) ;;;
  ret tt.

End Make_bcache.

(* ------------------------------------------------------------------ *)
(** ** Size parsing: strtoll, hatoi, hatoi_validate *)

Open Scope char_scope.

Definition isspace (c : ascii) : bool :=
  match c with
  | " " | "009" | "010" | "011" | "012" | "013" => true
  | _ => false
  end.

Definition isdigit (c : ascii) : bool :=
  let n := nat_of_ascii c in (48 <=? n)%nat && (n <=? 57)%nat.

Close Scope char_scope.

Definition digit_val (c : ascii) : Z := Z.of_nat (nat_of_ascii c) - 48.

Definition LLONG_MAX : Z := 2 ^ 63 - 1.
Definition LLONG_MIN : Z := - 2 ^ 63.

Fixpoint skip_spaces (s : list ascii) : list ascii :=
  match s with
  | c :: s' => if isspace c then skip_spaces s' else s
  | [] => []
  end.

(** The run of decimal digits at the head of [s]: its value (computed
    exactly) and what follows it. *)
Fixpoint digits_acc (acc : Z) (s : list ascii) : Z * list ascii :=
  match s with
  | c :: s' => if isdigit c then digits_acc (10 * acc + digit_val c) s' else (acc, s)
  | [] => (acc, [])
  end.

(** [strtoll(s, &e, 10)] of the C library: leading white space, an
    optional sign, decimal digits; the value saturates at [LLONG_MAX] /
    [LLONG_MIN]; without digits it is 0 and [e] is [s]. *)
Definition strtoll (s : list ascii) : Z * list ascii :=
  let t := skip_spaces s in
  let '(neg, t) := match t with
                   | "-"%char :: t' => (true, t')
                   | "+"%char :: t' => (false, t')
                   | _ => (false, t)
                   end in
  match t with
  | c :: _ =>
      if isdigit c then
        let '(v, e) := digits_acc 0 t in
        if neg then (Z.max LLONG_MIN (- v), e) else (Z.min LLONG_MAX v, e)
      else (0, s)
  | [] => (0, s)
  end.

(** [long long] multiplication, with the two's complement wrap-around
    of the compiled code (signed overflow is undefined in ISO C; gcc on
    x86-64 emits a wrapping multiply/shift here). *)
Definition to_llong (x : Z) : Z := (x + 2 ^ 63) mod U64 - 2 ^ 63.

(** [hatoi]: the [switch] falls through, each level multiplying by 1024. *)
Definition hatoi (s : list ascii) : Z :=
  let '(i, e) := strtoll s in
  let mul k i := Nat.iter k (fun i => to_llong (i * 1024)) i in
  let i := match e with
           | "t"%char :: _ | "T"%char :: _ => mul 4%nat i
           | "g"%char :: _ | "G"%char :: _ => mul 3%nat i
           | "m"%char :: _ | "M"%char :: _ => mul 2%nat i
           | "k"%char :: _ | "K"%char :: _ => mul 1%nat i
           | _ => i
           end in
  to_u64 i.

(** [hatoi_validate]: [None] is [exit(EXIT_FAILURE)]. *)
Definition hatoi_validate (s : list ascii) : option Z :=
  let v := hatoi s in
  if negb (Z.land v (to_u64 (v - 1)) =? 0) then None
  else
    let v := v / 512 in
    if v >? USHRT_MAX then None
    else if v =? 0 then None
    else Some v.

(* ------------------------------------------------------------------ *)
(** ** bcache-check: get_parent_device *)

(** The backward scan of [get_parent_device]:
    [for (i = length - 1; i >= 0; i--)]. *)
Fixpoint scan_tail (dev : list ascii) (length i : Z) (fuel : nat)
    (end_ digit_end : Z) : Z * Z :=
  match fuel with
  | O => (end_, digit_end)
  | S f =>
      if i <? 0 then (end_, digit_end) else
      let c := nth (Z.to_nat i) dev "000"%char in
      if negb (isdigit c) then
        (* 1. block device's partition end with "pX" *)
        ((if Ascii.eqb c "p"%char && negb (i =? length - 1) then i else end_),
         digit_end)
      else scan_tail dev length (i - 1) f end_ i
  end.

Definition firstn_z (n : Z) (l : list ascii) : list ascii := firstn (Z.to_nat n) l.

(** [sprintf(buf, "/sys/block/%s/%s/", p, dev)] *)
Definition sys_path (p dev : list ascii) : string :=
  string_of_list_ascii
    (list_ascii_of_string "/sys/block/" ++ p ++ ["/"%char] ++ dev ++ ["/"%char]).

(** [get_parent_device(dev, base)]: the returned length and the string in
    [base] (the caller's zeroed buffer, written only on success).
    [is_path_exist] is [access(path, F_OK) != -1]; [calloc_ok] says
    whether [calloc] succeeds. *)
Definition get_parent_device (is_path_exist : string -> bool) (calloc_ok : bool)
    (dev : string) : Z * string :=
  let d := list_ascii_of_string dev in
  let length := Z.of_nat (List.length d) in
  if length <? 2 then (0, EmptyString) else
  let '(end_, digit_end) := scan_tail d length (length - 1) (List.length d) 0 0 in
  if negb (digit_end =? 0) then
    if negb calloc_ok then (0, EmptyString) else
    let p := firstn_z digit_end d in
    if is_path_exist (sys_path p d) then (digit_end, string_of_list_ascii p)
    else if end_ =? 0 then (0, EmptyString)
    else
      (* 3. incase the device is sdp[1]... *)
      let p := firstn_z end_ d in
      if is_path_exist (sys_path p d) then (end_, string_of_list_ascii p)
      else (0, EmptyString)
  else (0, EmptyString).

(* ------------------------------------------------------------------ *)
(** ** The two checkers: alcubierre-check and bcache-check *)

(** The C string held by a NUL-terminated buffer: its bytes before the
    first NUL. *)
Fixpoint cstr (buf : list Z) : list Z :=
  match buf with
  | [] => []
  | b :: buf' => if b =? 0 then [] else b :: cstr buf'
  end.

(** [!strcmp(buf, lit)] *)
Definition strcmp_eq (buf : list Z) (lit : string) : bool :=
  bytes_eqb (cstr buf) (str_bytes lit).

(** The input [s] after the literal characters [p] of a [sscanf] format,
    [None] at the first mismatch or when the input ends. *)
Fixpoint strip_prefix (p s : list ascii) : option (list ascii) :=
  match p, s with
  | [], _ => Some s
  | c :: p', c' :: s' => if Ascii.eqb c c' then strip_prefix p' s' else None
  | _ :: _, [] => None
  end.

(** The characters [%s] stores: those up to the next white space. *)
Fixpoint take_nonspace (s : list ascii) : list ascii :=
  match s with
  | c :: s' => if isspace c then [] else c :: take_nonspace s'
  | [] => []
  end.

(** [sscanf(arg, "/dev/%s", bdev_name) == 1]: the literal [/dev/], then
    [%s], which skips white space and stores the following non-white-space
    characters, at least one.  [Some name] is a return value of 1 with
    [name] stored in [bdev_name]. *)
Definition sscanf_dev (arg : string) : option string :=
  match strip_prefix (list_ascii_of_string "/dev/") (list_ascii_of_string arg) with
  | None => None
  | Some rest =>
      match take_nonspace (skip_spaces rest) with
      | [] => None
      | name => Some (string_of_list_ascii name)
      end
  end.

(** [main] of alcubierre-check (src/alcubierre-check.c): the lines it
    prints and its return value.  [argv] includes the program name;
    [read10 node] is the outcome of [open(node, O_RDONLY)] and
    [read(fd, buf, 10)]: [None] when the open fails, otherwise the bytes
    read (so [count] is their number).  [buf] is [char buf[11] = {0}]. *)
Definition alcubierre_check (argv : list string) (read10 : string -> option (list Z))
    : list string * Z :=
  match argv with
  | [_; node] =>
      match read10 node with
      | None => ([String.append "Can not open device " node], -1)
      | Some bytes =>
          if negb (Nat.eqb (List.length bytes) 10)
          then ([String.append "Can not read device " node], -1)
          else
            let buf := bytes ++ [0] in
            ([if strcmp_eq buf "alcubierre" then "ALCUBIERRE_DEV=yes"%string
              else "ALCUBIERRE_DEV=no"%string], 0)
      end
  | _ => (["Usage: alcubierre-check NODE"%string], -1)
  end.

(** [main] of bcache-check (src/bcache-check.c): the lines it prints
    (the allocation message of [get_parent_device] aside) and its return
    value; [is_path_exist] is [access(path, F_OK) != -1] and [calloc_ok]
    whether [calloc] succeeds in [get_parent_device]. *)
Definition bcache_check (argv : list string) (read10 : string -> option (list Z))
    (is_path_exist : string -> bool) (calloc_ok : bool) : list string * Z :=
  match argv with
  | [_; node] =>
      match read10 node with
      | None => ([String.append "Can not open device " node], -1)
      | Some bytes =>
          if negb (Nat.eqb (List.length bytes) 10)
          then ([String.append "Can not read device " node], -1)
          else
            let buf := bytes ++ [0] in
            let l1 := if strcmp_eq buf "alcubierre" || strcmp_eq buf "##skipudev"
                      then "SKIPREGISTER_DEV=yes"%string
                      else "SKIPREGISTER_DEV=no"%string in
            match sscanf_dev node with
            | None => ([l1; String.append "Can not parse '/dev/bdev_name' from " node], -1)
            | Some bdev_name =>
                let '(r, device) := get_parent_device is_path_exist calloc_ok bdev_name in
                let escache_dir :=
                  if negb (r =? 0)
                  then ("/sys/block/" ++ device ++ "/" ++ bdev_name ++ "/escache")%string
                  else ("/sys/block/" ++ bdev_name ++ "/escache")%string in
                ([l1; if is_path_exist escache_dir then "DISK_REGISTERED=yes"%string
                      else "DISK_REGISTERED=no"%string], 0)
            end
      end
  | _ => (["Usage: disk-check NODE"%string], -1)
  end.

(* ------------------------------------------------------------------ *)
(** ** main *)

(** The locals of [main] that option parsing updates (and the two global
    flags set by [-A] and [-S]). *)
Record cfg := mk_cfg {
  c_alcubierre_dev : bool;
  c_skip_udev_register : bool;
  c_dirty : bool;
  c_bdev : Z;
  c_cache_devices : list string;
  c_backing_devices : list string;
  c_block_size : Z;
  c_bucket_size : Z;
  c_writeback : bool;
  c_discard : bool;
  c_wipe_bcache : bool;
  c_cache_replacement_policy : Z;
  c_data_offset : Z;
  c_set_uuid : list Z;
  c_bdev_uuid : list Z;
  c_sb_idx : Z;
  c_sb_num : Z
}.

Definition upd_alcubierre_dev (c : cfg) (v : bool) : cfg :=
  let '(mk_cfg _ a2 a3 a4 a5 a6 a7 a8 a9 a10 a11 a12 a13 a14 a15 a16 a17) := c in
  mk_cfg v a2 a3 a4 a5 a6 a7 a8 a9 a10 a11 a12 a13 a14 a15 a16 a17.
Definition upd_skip_udev_register (c : cfg) (v : bool) : cfg :=
  let '(mk_cfg a1 _ a3 a4 a5 a6 a7 a8 a9 a10 a11 a12 a13 a14 a15 a16 a17) := c in
  mk_cfg a1 v a3 a4 a5 a6 a7 a8 a9 a10 a11 a12 a13 a14 a15 a16 a17.
Definition upd_dirty (c : cfg) (v : bool) : cfg :=
  let '(mk_cfg a1 a2 _ a4 a5 a6 a7 a8 a9 a10 a11 a12 a13 a14 a15 a16 a17) := c in
  mk_cfg a1 a2 v a4 a5 a6 a7 a8 a9 a10 a11 a12 a13 a14 a15 a16 a17.
Definition upd_bdev (c : cfg) (v : Z) : cfg :=
  let '(mk_cfg a1 a2 a3 _ a5 a6 a7 a8 a9 a10 a11 a12 a13 a14 a15 a16 a17) := c in
  mk_cfg a1 a2 a3 v a5 a6 a7 a8 a9 a10 a11 a12 a13 a14 a15 a16 a17.
Definition upd_cache_devices (c : cfg) (v : list string) : cfg :=
  let '(mk_cfg a1 a2 a3 a4 _ a6 a7 a8 a9 a10 a11 a12 a13 a14 a15 a16 a17) := c in
  mk_cfg a1 a2 a3 a4 v a6 a7 a8 a9 a10 a11 a12 a13 a14 a15 a16 a17.
Definition upd_backing_devices (c : cfg) (v : list string) : cfg :=
  let '(mk_cfg a1 a2 a3 a4 a5 _ a7 a8 a9 a10 a11 a12 a13 a14 a15 a16 a17) := c in
  mk_cfg a1 a2 a3 a4 a5 v a7 a8 a9 a10 a11 a12 a13 a14 a15 a16 a17.
Definition upd_block_size (c : cfg) (v : Z) : cfg :=
  let '(mk_cfg a1 a2 a3 a4 a5 a6 _ a8 a9 a10 a11 a12 a13 a14 a15 a16 a17) := c in
  mk_cfg a1 a2 a3 a4 a5 a6 v a8 a9 a10 a11 a12 a13 a14 a15 a16 a17.
Definition upd_bucket_size (c : cfg) (v : Z) : cfg :=
  let '(mk_cfg a1 a2 a3 a4 a5 a6 a7 _ a9 a10 a11 a12 a13 a14 a15 a16 a17) := c in
  mk_cfg a1 a2 a3 a4 a5 a6 a7 v a9 a10 a11 a12 a13 a14 a15 a16 a17.
Definition upd_writeback (c : cfg) (v : bool) : cfg :=
  let '(mk_cfg a1 a2 a3 a4 a5 a6 a7 a8 _ a10 a11 a12 a13 a14 a15 a16 a17) := c in
  mk_cfg a1 a2 a3 a4 a5 a6 a7 a8 v a10 a11 a12 a13 a14 a15 a16 a17.
Definition upd_discard (c : cfg) (v : bool) : cfg :=
  let '(mk_cfg a1 a2 a3 a4 a5 a6 a7 a8 a9 _ a11 a12 a13 a14 a15 a16 a17) := c in
  mk_cfg a1 a2 a3 a4 a5 a6 a7 a8 a9 v a11 a12 a13 a14 a15 a16 a17.
Definition upd_wipe_bcache (c : cfg) (v : bool) : cfg :=
  let '(mk_cfg a1 a2 a3 a4 a5 a6 a7 a8 a9 a10 _ a12 a13 a14 a15 a16 a17) := c in
  mk_cfg a1 a2 a3 a4 a5 a6 a7 a8 a9 a10 v a12 a13 a14 a15 a16 a17.
Definition upd_cache_replacement_policy (c : cfg) (v : Z) : cfg :=
  let '(mk_cfg a1 a2 a3 a4 a5 a6 a7 a8 a9 a10 a11 _ a13 a14 a15 a16 a17) := c in
  mk_cfg a1 a2 a3 a4 a5 a6 a7 a8 a9 a10 a11 v a13 a14 a15 a16 a17.
Definition upd_data_offset (c : cfg) (v : Z) : cfg :=
  let '(mk_cfg a1 a2 a3 a4 a5 a6 a7 a8 a9 a10 a11 a12 _ a14 a15 a16 a17) := c in
  mk_cfg a1 a2 a3 a4 a5 a6 a7 a8 a9 a10 a11 a12 v a14 a15 a16 a17.
Definition upd_set_uuid (c : cfg) (v : list Z) : cfg :=
  let '(mk_cfg a1 a2 a3 a4 a5 a6 a7 a8 a9 a10 a11 a12 a13 _ a15 a16 a17) := c in
  mk_cfg a1 a2 a3 a4 a5 a6 a7 a8 a9 a10 a11 a12 a13 v a15 a16 a17.
Definition upd_bdev_uuid (c : cfg) (v : list Z) : cfg :=
  let '(mk_cfg a1 a2 a3 a4 a5 a6 a7 a8 a9 a10 a11 a12 a13 a14 _ a16 a17) := c in
  mk_cfg a1 a2 a3 a4 a5 a6 a7 a8 a9 a10 a11 a12 a13 a14 v a16 a17.
Definition upd_sb_idx (c : cfg) (v : Z) : cfg :=
  let '(mk_cfg a1 a2 a3 a4 a5 a6 a7 a8 a9 a10 a11 a12 a13 a14 a15 _ a17) := c in
  mk_cfg a1 a2 a3 a4 a5 a6 a7 a8 a9 a10 a11 a12 a13 a14 a15 v a17.
Definition upd_sb_num (c : cfg) (v : Z) : cfg :=
  let '(mk_cfg a1 a2 a3 a4 a5 a6 a7 a8 a9 a10 a11 a12 a13 a14 a15 a16 _) := c in
  mk_cfg a1 a2 a3 a4 a5 a6 a7 a8 a9 a10 a11 a12 a13 a14 a15 a16 v.

(** What [getopt_long] hands to the [switch] of [main], in order.  The
    library conversions ([atoll], [atoi], [uuid_parse]) are applied
    already: [Opto], [Opts], [Optr] carry the converted number, [Optu],
    [Optv] the parsed uuid ([None] when [uuid_parse] fails); [OptDev] is a
    non-option argument (case 1); [OptOther] a character without a case. *)
Inductive opt :=
| OptA | OptS | OptC | OptB
| Optb (arg : list ascii)
| Optw (arg : list ascii)
| OptWriteback | OptWipe | OptDiscard
| Optp (arg : list ascii)
| Opto (v : Z)
| Optu (u : option (list Z))
| Optv (u : option (list Z))
| Opts (v : Z)
| Optr (v : Z)
| Opth
| OptDev (name : string)
| OptOther.

Definition cache_replacement_policies : list string := ["lru"; "fifo"; "random"]%string.

Definition strim (s : list ascii) : list ascii := rev (skip_spaces (rev (skip_spaces s))).

Definition EINVAL : Z := 22.

(** [read_string_list(buf, list)] once [d = strdup(buf)] has succeeded:
    the index of the trimmed [buf] in [list], or [-EINVAL].  The option
    loop of [main] below is modelled on runs where this [strdup]
    succeeds; [read_string_list_full] adds its failure. *)
Definition read_string_list (buf : list ascii) (l : list string) : Z :=
  let s := string_of_list_ascii (strim buf) in
  let fix go (l : list string) (i : Z) : Z :=
    match l with
    | [] => - EINVAL
    | x :: l' => if String.eqb x s then i else go l' (i + 1)
    end in
  go l 0.

Definition ENOMEM : Z := 12.

(** The whole of [read_string_list]: [strdup_ok] is whether
    [d = strdup(buf)] succeeds; when it fails, [-ENOMEM]. *)
Definition read_string_list_full (strdup_ok : bool) (buf : list ascii) (l : list string) : Z :=
  if negb strdup_ok then - ENOMEM else read_string_list buf l.

Definition to_u32 (x : Z) : Z := x mod U32.

(** [get_blocksize(path)] in sectors. *)
Definition get_blocksize (dev : string) : M Z :=
  fun s => let d := st_devs s dev in
           if negb (d_stat_ok d) then (Exit, s)
           else if d_is_blk d then (Ok (d_logical_block_size d / 512), s)
           else (Ok (d_st_blksize d / 512), s).

Section Main.

Variable checksum : list Z -> Z.
Variable uuid_gen : nat -> list Z.
(** Modelled from the spec: bcache.h's [BDEV_SB_NUM_MAX] (the largest
    number of superblock copies) and [BDEV_DATA_OFFSET(n)] (the least data
    offset that leaves room for [n] copies); their values are not given,
    so they stay parameters. *)
Variable BDEV_SB_NUM_MAX : Z.
Variable BDEV_DATA_OFFSET : Z -> Z.

(** One case of the [switch] in the option loop; [None] is an exit. *)
Definition process_opt (c : cfg) (o : opt) : option cfg :=
  match o with
  | OptA => Some (upd_skip_udev_register (upd_alcubierre_dev c true) true)
  | OptS => Some (upd_skip_udev_register c true)
  | OptC => Some (upd_bdev c 0)
  | OptB => Some (upd_bdev c 1)
  | Optb a => option_map (upd_bucket_size c) (hatoi_validate a)
  | Optw a => option_map (upd_block_size c) (hatoi_validate a)
  | OptWriteback => Some (upd_writeback c true)
  | OptWipe => Some (upd_wipe_bcache c true)
  | OptDiscard => Some (upd_discard c true)
  | Optp a => Some (upd_cache_replacement_policy c
                      (to_u32 (read_string_list a cache_replacement_policies)))
  | Opto v => Some (upd_data_offset c (to_u64 v))
  | Optu None => None
  | Optu (Some u) => Some (upd_set_uuid c u)
  | Optv None => None
  | Optv (Some u) =>
      (* bdev_uuid: the faked backing uuid;
         dirty: once fake backing attach to cache writeback resume *)
      Some (upd_dirty (upd_bdev_uuid c u) true)
  | Opts v => if v >? BDEV_SB_NUM_MAX then None else Some (upd_sb_num c v)
  | Optr v => if (v <? 0) || (v >=? BDEV_SB_NUM_MAX) then None
              else Some (upd_sb_idx c v)
  | Opth => None
  | OptDev name =>
      if c_bdev c =? -1 then None
      else if negb (c_bdev c =? 0)
      then Some (upd_backing_devices c (c_backing_devices c ++ [name]))
      else Some (upd_cache_devices c (c_cache_devices c ++ [name]))
  | OptOther => Some c
  end.

Fixpoint process_opts (c : cfg) (os : list opt) : option cfg :=
  match os with
  | [] => Some c
  | o :: os' => match process_opt c o with
                | Some c' => process_opts c' os'
                | None => None
                end
  end.

Definition lift_opt {A} (o : option A) : M A :=
  match o with Some a => ret a | None => exit_failure end.

(** [for (i = 0; i < n; i++) block_size = max(block_size, get_blocksize(devs[i]));] *)
Fixpoint max_blocksize (bs : Z) (devs : list string) : M Z :=
  match devs with
  | [] => ret bs
  | d :: devs' => b <- get_blocksize d ;; max_blocksize (Z.max bs b) devs'
  end.

Fixpoint for_each (devs : list string) (f : string -> M unit) : M unit :=
  match devs with
  | [] => ret tt
  | d :: devs' => f d ;;; for_each devs' f
  end.

(** The initial values of [main]'s locals, with the two generated uuids. *)
Definition main_defaults (set_uuid bdev_uuid : list Z) : cfg :=
  mk_cfg false false false (-1) [] [] 0 1024 false false false 0
         (to_u64 (-1)) set_uuid bdev_uuid (-1) 1.

(** [main] from its option loop on, the two uuids generated. *)
Definition main_after_uuids (set_uuid bdev_uuid : list Z) (os : list opt) : M unit :=
  c <- lift_opt (process_opts (main_defaults set_uuid bdev_uuid) os) ;;
  (* Please supply a device *)
  when (Nat.eqb (List.length (c_cache_devices c)) 0
        && Nat.eqb (List.length (c_backing_devices c)) 0)
    exit_failure ;;;
  block_size <- (if c_block_size c =? 0 then
                   bs <- max_blocksize (c_block_size c) (c_cache_devices c) ;;
                   max_blocksize bs (c_backing_devices c)
                 else ret (c_block_size c)) ;;
  when (c_bucket_size c <? block_size) exit_failure ;;;
  data_offset <- (if c_data_offset c =? to_u64 (-1)
                  then ret (to_u64 (BDEV_DATA_OFFSET (c_sb_num c)))
                  else if c_data_offset c <? to_u64 (BDEV_DATA_OFFSET (c_sb_num c))
                  then exit_failure
                  else ret (c_data_offset c)) ;;
  if c_sb_idx c >=? 0 then
    match c_backing_devices c with
    | [dev] => reset_backing_sb checksum dev (c_wipe_bcache c) (c_sb_idx c)
                 (c_set_uuid c) (c_bdev_uuid c)
    | _ => exit_failure
    end
  else
    for_each (c_cache_devices c) (fun dev =>
      write_sb checksum uuid_gen (c_alcubierre_dev c) (c_skip_udev_register c)
        dev block_size (c_bucket_size c) (c_writeback c) (c_discard c)
        (c_wipe_bcache c) (c_cache_replacement_policy c) data_offset
        (c_set_uuid c) false (c_bdev_uuid c) (c_dirty c) 1) ;;;
    for_each (c_backing_devices c) (fun dev =>
      write_sb checksum uuid_gen (c_alcubierre_dev c) (c_skip_udev_register c)
        dev block_size (c_bucket_size c) (c_writeback c) (c_discard c)
        (c_wipe_bcache c) (c_cache_replacement_policy c) data_offset
        (c_set_uuid c) true (c_bdev_uuid c) (c_dirty c) (c_sb_num c)).

(** [main] after [getopt_long]: [uuid_generate(set_uuid);
    uuid_generate(bdev_uuid);], then the option loop and the formats. *)
Definition main (os : list opt) : M unit :=
  set_uuid <- uuid_generate uuid_gen ;;
  bdev_uuid <- uuid_generate uuid_gen ;;
  main_after_uuids set_uuid bdev_uuid os.

End Main.

(* ------------------------------------------------------------------ *)
(** ** Observations used by the statements *)

Definition write_len (w : write) : Z := Z.of_nat (length (payload_bytes (w_payload w))).

(** [w] does not touch byte [a] of [dev]. *)
Definition misses (dev : string) (a : Z) (w : write) : Prop :=
  w_dev w <> dev \/ a < w_off w \/ w_off w + write_len w <= a.

(** The record [reset_backing_sb ... sb_idx su bu] writes, built from the
    record [old] read at that index. *)
Definition reset_record (checksum : list Z -> Z) (old : cache_sb) (su bu : list Z) : cache_sb :=
  let R := rebuild_backing_sb (sb_block_size old) (sb_bucket_size old) (sb_data_offset old) su bu in
  with_csum R (csum_set checksum R).

(** The record of one iteration of the secondary-superblock loop of
    [write_sb], from the record [sb] of the previous one. *)
Definition secondary_sb (checksum : list Z -> Z) (sb : cache_sb) (u su : list Z) : cache_sb :=
  let sb := with_offset sb SB_SECTOR in
  let sb := with_uuid sb u in
  let sb := with_set_uuid sb su in
  with_csum sb (csum_set checksum sb).

(** The writes of [n] iterations of that loop from index [i], the uuid
    supply standing at [g]. *)
Fixpoint secondary_writes (checksum : list Z -> Z) (uuid_gen : nat -> list Z) (dev : string)
    (sb : cache_sb) (i : Z) (g : nat) (n : nat) : list write :=
  match n with
  | O => []
  | S n' =>
      mk_write dev (SB_OFFSET i)
        (PSb (secondary_sb checksum sb (byte_array 16 (uuid_gen g))
                (byte_array 16 (uuid_gen (S g)))))
      :: secondary_writes checksum uuid_gen dev sb (i + 1) (S (S g)) n'
  end.

(** The writes [write_sb] makes before the primary superblock: the zeroed
    first [SB_START] bytes and the registration marker. *)
Definition head_write (dev : string) (w : write) : Prop :=
  w_dev w = dev /\ w_off w = 0
  /\ (w_payload w = PZeros SB_START \/ exists m, w_payload w = PMarker m).

(** The writes of the journal zeroing: zeros on [dev], at or after [lo]. *)
Definition zero_write (dev : string) (lo : Z) (w : write) : Prop :=
  w_dev w = dev /\ lo <= w_off w /\ exists len, w_payload w = PZeros len.

(** [m] leaves the devices as they are, only appends writes satisfying
    [P] to the trace, and returns only values satisfying [Q]. *)
Definition hoare {A} (P : write -> Prop) (Q : A -> Prop) (m : M A) : Prop :=
  forall s, let '(o, s') := m s in
    st_devs s' = st_devs s
    /\ (exists new, st_trace s' = st_trace s ++ new /\ Forall P new)
    /\ (forall a, o = Ok a -> Q a).

(** The options that set the backing uuid ([-v] with a valid uuid), that
    set either uuid ([-u], [-v]) and that select a reset ([-r]). *)
Definition sets_bdev_uuid (o : opt) : bool :=
  match o with Optv (Some _) => true | _ => false end.
Definition is_uuid_opt (o : opt) : bool :=
  match o with Optu _ | Optv _ => true | _ => false end.
Definition is_reset_opt (o : opt) : bool :=
  match o with Optr _ => true | _ => false end.

(** [w], if it writes a backing-device record, writes state [st]. *)
Definition bdev_state_is (st : Z) (w : write) : Prop :=
  forall r, w_payload w = PSb r -> SB_IS_BDEV r = true -> BDEV_STATE r = st.


(** What [open(node, O_RDONLY)] and [read(fd, buf, 10)] give on the
    device node [node] of state [s]: its first bytes, at most 10. *)
Definition read10_of (s : state) (node : string) : option (list Z) :=
  Some (read_bytes (disk s node) 0 (Z.to_nat (Z.min 10 (d_size (st_devs s node))))).

(* ------------------------------------------------------------------ *)
(** ** A concrete environment *)

(** A 1 MiB device of zeros on which every call succeeds, with 512-byte
    logical blocks; the blkid probe finds no signature. *)
Definition ex_dev : device := mk_dev true (2 ^ 20) (fun _ => 0) (Some 1) true true 512 4096.
Definition ex_state : state := mk_state (fun _ => ex_dev) 0 [].
(** A stand-in checksum (the sum of the bytes) and uuid supply. *)
Definition ex_checksum (l : list Z) : Z := fold_left Z.add l 0.
Definition ex_uuid_gen (n : nat) : list Z := repeat (Z.of_nat n + 1) 16.

(** A backing device [b] of [ex_state] formatted in writeback mode,
    dirty, with data offset 40 and two superblock copies. *)
Definition ex_formatted : state :=
  snd (write_sb ex_checksum ex_uuid_gen false false "b"%string 8 1024 true false false 0 40
                (repeat 1 16) true (repeat 2 16) true 2 ex_state).

(** A cache device [c] of [ex_state] formatted with one-sector blocks and
    eight-sector buckets (256 buckets). *)
Definition ex_cache_formatted : state :=
  snd (write_sb ex_checksum ex_uuid_gen false false "c"%string 1 8 false true false 0 16
                (repeat 1 16) false (repeat 2 16) false 1 ex_state).

(** Whether a write puts a superblock record on disk. *)
Definition is_sb_write (w : write) : bool :=
  match w_payload w with PSb _ => true | _ => false end.

(** A pseudo-filesystem exposing exactly the two partition directories
    [/sys/block/sda/sda1/] and [/sys/block/nvme0n1/nvme0n1p1/]. *)
Definition ex_sysfs (path : string) : bool :=
  String.eqb path "/sys/block/sda/sda1/"%string || String.eqb path "/sys/block/nvme0n1/nvme0n1p1/"%string.

(* ================================================================== *)
(** * Proofs *)

(* ------------------------------------------------------------------ *)
(** ** Encoding lemmas *)

Lemma mod_mul_split (x b c : Z) :
  0 < b -> 0 < c -> x mod (b * c) = x mod b + b * ((x / b) mod c).
Proof.
  intros Hb Hc.
  symmetry. apply Z.mod_unique with (q := x / b / c); [left; split|].
  - pose proof (Z.mod_pos_bound x b Hb). pose proof (Z.mod_pos_bound (x / b) c Hc). nia.
  - pose proof (Z.mod_pos_bound x b Hb). pose proof (Z.mod_pos_bound (x / b) c Hc). nia.
  - pose proof (Z.div_mod x b ltac:(lia)). pose proof (Z.div_mod (x / b) c ltac:(lia)). nia.
Qed.

Lemma length_le_bytes n x : length (le_bytes n x) = n.
Proof. revert x; induction n; intros; simpl; auto. Qed.

Lemma le_val_le_bytes n x : le_val (le_bytes n x) = x mod 2 ^ (8 * Z.of_nat n).
Proof.
  revert x; induction n as [|n IH]; intros x.
  - simpl. rewrite Z.mod_1_r. reflexivity.
  - simpl le_bytes. simpl le_val. rewrite IH.
    replace (8 * Z.of_nat (S n)) with (8 + 8 * Z.of_nat n) by lia.
    rewrite Z.pow_add_r by lia.
    rewrite (mod_mul_split x (2 ^ 8) (2 ^ (8 * Z.of_nat n))).
    + reflexivity.
    + lia.
    + apply Z.pow_pos_nonneg; lia.
Qed.

Lemma Forall_byte_le_bytes n x : Forall (fun b => 0 <= b < 256) (le_bytes n x).
Proof.
  revert x; induction n; intros; simpl; constructor; auto.
  apply Z.mod_pos_bound; lia.
Qed.

Lemma length_byte_array n l : length (byte_array n l) = n.
Proof.
  unfold byte_array. rewrite length_map, length_firstn, length_app, repeat_length. lia.
Qed.

Lemma length_u64_list n l : length (u64_list n l) = n.
Proof.
  unfold u64_list. rewrite length_map, length_firstn, length_app, repeat_length. lia.
Qed.

Lemma length_concat_le8 l : length (concat (map (le_bytes 8) l)) = (8 * length l)%nat.
Proof.
  induction l; cbn [map concat]; [reflexivity|].
  rewrite length_app, length_le_bytes, IHl. cbn [length]. lia.
Qed.

Lemma length_u64_array n l : length (u64_array n l) = (8 * n)%nat.
Proof. unfold u64_array. rewrite length_concat_le8, length_u64_list. reflexivity. Qed.

Lemma take_app n (a b : list Z) : length a = n -> take n (a ++ b) = (a, b).
Proof.
  intros <-. unfold take. rewrite firstn_app, skipn_app, firstn_all, skipn_all, Nat.sub_diag.
  simpl. rewrite app_nil_r. reflexivity.
Qed.

Lemma take_all n (a : list Z) : length a = n -> take n a = (a, []).
Proof. intros H. rewrite <- (app_nil_r a). rewrite take_app by exact H. now rewrite app_nil_r. Qed.

Lemma firstn_app_len {A} n (a b : list A) : length a = n -> firstn n (a ++ b) = a.
Proof. intros <-. rewrite firstn_app, firstn_all, Nat.sub_diag. simpl. apply app_nil_r. Qed.

Lemma skipn_app_len {A} n (a b : list A) : length a = n -> skipn n (a ++ b) = b.
Proof. intros <-. rewrite skipn_app, skipn_all, Nat.sub_diag. reflexivity. Qed.

Lemma u64s_concat l :
  u64s (length l) (concat (map (le_bytes 8) l)) = map (fun x => x mod U64) l.
Proof.
  induction l as [|x l IH]; [reflexivity|]. cbn [map concat length u64s].
  rewrite firstn_app_len, skipn_app_len by apply length_le_bytes.
  rewrite IH, le_val_le_bytes. reflexivity.
Qed.

Lemma u64s_u64_array n l : u64s n (u64_array n l) = u64_list n l.
Proof.
  unfold u64_array. rewrite <- (length_u64_list n l) at 1. rewrite u64s_concat.
  unfold u64_list. rewrite map_map. apply map_ext. intros; apply Z.mod_mod. discriminate.
Qed.

Ltac take_step :=
  first [ rewrite take_app by (rewrite ?length_le_bytes, ?length_byte_array, ?length_u64_array; reflexivity)
        | rewrite take_all by (rewrite ?length_le_bytes, ?length_byte_array, ?length_u64_array; reflexivity) ];
  cbv beta iota.

(** Reading back the bytes of a record yields the record with each field
    reduced to its C type. *)
Lemma deserialize_serialize s : deserialize (serialize s) = sb_norm s.
Proof.
  destruct s. unfold deserialize, serialize, sb_norm; simpl sb_csum; simpl sb_offset;
    simpl sb_version; simpl sb_magic; simpl sb_uuid; simpl sb_set_uuid; simpl sb_label;
    simpl sb_flags; simpl sb_seq; simpl sb_pad; simpl sb_data_offset; simpl sb_block_size;
    simpl sb_bucket_size; simpl sb_nr_in_set; simpl sb_nr_this_dev; simpl sb_last_mount;
    simpl sb_first_bucket; simpl sb_njournal_buckets; simpl sb_d.
  do 19 take_step.
  rewrite !le_val_le_bytes, !u64s_u64_array. reflexivity.
Qed.

Lemma Forall_byte_byte_array n l : Forall (fun b => 0 <= b < 256) (byte_array n l).
Proof.
  unfold byte_array. apply Forall_map, Forall_forall. intros; apply Z.mod_pos_bound; lia.
Qed.

Lemma Forall_byte_concat l : Forall (fun b => 0 <= b < 256) (concat (map (le_bytes 8) l)).
Proof.
  induction l; cbn [map concat]; [constructor|].
  apply Forall_app; split; auto using Forall_byte_le_bytes.
Qed.

Lemma Forall_byte_serialize s : Forall (fun b => 0 <= b < 256) (serialize s).
Proof.
  unfold serialize, u64_array.
  repeat (apply Forall_app; split);
    auto using Forall_byte_le_bytes, Forall_byte_byte_array, Forall_byte_concat.
Qed.

Lemma length_serialize s : Z.of_nat (length (serialize s)) = sizeof_cache_sb.
Proof.
  unfold serialize. rewrite !length_app, !length_le_bytes, !length_byte_array, !length_u64_array.
  reflexivity.
Qed.

(* ------------------------------------------------------------------ *)
(** ** Device contents *)

Lemma apply_trace_app dev t1 t2 d :
  apply_trace dev (t1 ++ t2) d = apply_trace dev t2 (apply_trace dev t1 d).
Proof. unfold apply_trace. apply fold_left_app. Qed.

Lemma apply_trace_frame dev tr d a :
  Forall (misses dev a) tr -> apply_trace dev tr d a = d a.
Proof.
  revert d; induction tr as [|w tr IH]; intros d H; [reflexivity|].
  inversion H as [|? ? Hw Htr]; subst.
  change (apply_trace dev (w :: tr) d) with
    (apply_trace dev tr (if String.eqb (w_dev w) dev
                         then apply_write d (w_off w) (payload_bytes (w_payload w)) else d)).
  rewrite IH by exact Htr.
  destruct (String.eqb_spec (w_dev w) dev) as [E|E]; [|reflexivity].
  unfold apply_write. unfold misses, write_len in Hw.
  destruct Hw as [Hw|Hw]; [congruence|].
  destruct ((w_off w <=? a) && (a <? w_off w + Z.of_nat (length (payload_bytes (w_payload w))))) eqn:C;
    [|reflexivity].
  apply andb_prop in C as [C1 C2]. apply Z.leb_le in C1. apply Z.ltb_lt in C2. lia.
Qed.

Lemma apply_write_at d off data k :
  (k < length data)%nat ->
  apply_write d off data (off + Z.of_nat k) = nth k data 0.
Proof.
  intros Hk. unfold apply_write.
  replace ((off <=? off + Z.of_nat k) && (off + Z.of_nat k <? off + Z.of_nat (length data)))
    with true by (symmetry; apply andb_true_intro; split; [apply Z.leb_le|apply Z.ltb_lt]; lia).
  f_equal. lia.
Qed.

Lemma nth_map_lt {A B} (f : A -> B) l k da db :
  (k < length l)%nat -> nth k (map f l) db = f (nth k l da).
Proof. intros. rewrite (nth_indep _ db (f da)) by (rewrite length_map; lia). apply map_nth. Qed.

Lemma read_bytes_ext d1 d2 off n :
  (forall k, (k < n)%nat -> d1 (off + Z.of_nat k) = d2 (off + Z.of_nat k)) ->
  read_bytes d1 off n = read_bytes d2 off n.
Proof.
  intros H. unfold read_bytes. apply map_ext_in. intros k Hk.
  apply in_seq in Hk. rewrite H by lia. reflexivity.
Qed.

Lemma read_bytes_write d off data :
  Forall (fun b => 0 <= b < 256) data ->
  read_bytes (apply_write d off data) off (length data) = data.
Proof.
  intros Hb. unfold read_bytes.
  apply nth_ext with (d := 0) (d' := 0); rewrite ?length_map, ?length_seq; [reflexivity|].
  intros k Hk. rewrite (nth_map_lt _ _ _ O) by (rewrite length_seq; lia).
  rewrite seq_nth by lia. simpl. rewrite apply_write_at by lia.
  apply Z.mod_small. rewrite Forall_forall in Hb. apply Hb, nth_In. lia.
Qed.

Lemma apply_write_miss d off data a :
  a < off \/ off + Z.of_nat (length data) <= a -> apply_write d off data a = d a.
Proof.
  intros H. unfold apply_write.
  destruct ((off <=? a) && (a <? off + Z.of_nat (length data))) eqn:C; [|reflexivity].
  apply andb_prop in C as [C1 C2]. apply Z.leb_le in C1. apply Z.ltb_lt in C2. lia.
Qed.

Lemma disk_snoc s dev w :
  w_dev w = dev ->
  disk (mk_state (st_devs s) (st_gen s) (st_trace s ++ [w])) dev
  = apply_write (disk s dev) (w_off w) (payload_bytes (w_payload w)).
Proof.
  intros E. unfold disk. cbn [st_devs st_trace]. rewrite apply_trace_app.
  unfold apply_trace at 1. cbn [fold_left]. rewrite E, String.eqb_refl. reflexivity.
Qed.

(** Reading back a record written at [off]. *)
Lemma read_back_sb d off sb :
  deserialize (read_bytes (apply_write d off (serialize sb)) off (Z.to_nat sizeof_cache_sb))
  = sb_norm sb.
Proof.
  replace (Z.to_nat sizeof_cache_sb) with (length (serialize sb))
    by (rewrite <- (length_serialize sb); lia).
  rewrite read_bytes_write by apply Forall_byte_serialize.
  apply deserialize_serialize.
Qed.

(** The bytes of copy [j] do not overlap the record written at copy [i]. *)
Lemma SB_OFFSET_apart i j :
  j <> i -> forall k, 0 <= k < sizeof_cache_sb ->
  SB_OFFSET j + k < SB_OFFSET i \/ SB_OFFSET i + sizeof_cache_sb <= SB_OFFSET j + k.
Proof.
  intros Hij k Hk. unfold SB_OFFSET, SB_SECTOR, sizeof_cache_sb, SB_JOURNAL_BUCKETS in *.
  rewrite !Z.shiftl_mul_pow2 by lia. lia.
Qed.

(* ------------------------------------------------------------------ *)
(** ** Ranges of the fields read from a device *)

Lemma Forall_skipn_byte n (l : list Z) :
  Forall (fun b => 0 <= b < 256) l -> Forall (fun b => 0 <= b < 256) (skipn n l).
Proof. revert l; induction n; intros [|x l] H; simpl; auto. inversion H; auto. Qed.

Lemma le_val_range l :
  Forall (fun b => 0 <= b < 256) l -> 0 <= le_val l < 2 ^ (8 * Z.of_nat (length l)).
Proof.
  induction l as [|b l IH]; intros H; [simpl; lia|].
  inversion H as [|? ? Hb Hl]; subst. specialize (IH Hl). cbn [le_val length].
  replace (8 * Z.of_nat (S (length l))) with (8 + 8 * Z.of_nat (length l)) by lia.
  rewrite Z.pow_add_r by lia. change (2 ^ 8) with 256. nia.
Qed.

Lemma le_val_firstn_range k l :
  Forall (fun b => 0 <= b < 256) l -> 0 <= le_val (firstn k l) < 2 ^ (8 * Z.of_nat k).
Proof.
  intros H.
  assert (Hf : Forall (fun b => 0 <= b < 256) (firstn k l)).
  { revert l H; induction k; intros [|x l] H; simpl; auto. inversion H; auto. }
  pose proof (le_val_range _ Hf). split; [lia|].
  eapply Z.lt_le_trans; [apply H0|]. apply Z.pow_le_mono_r; [lia|].
  rewrite length_firstn. lia.
Qed.

Lemma Forall_read_bytes d off n : Forall (fun b => 0 <= b < 256) (read_bytes d off n).
Proof.
  unfold read_bytes. apply Forall_map, Forall_forall. intros; apply Z.mod_pos_bound; lia.
Qed.

Lemma read_copy_ranges s dev i :
  let old := read_copy s dev i in
  0 <= sb_block_size old < U16 /\ 0 <= sb_bucket_size old < U16
  /\ 0 <= sb_data_offset old < U64.
Proof.
  pose proof (Forall_read_bytes (disk s dev) (SB_OFFSET i) (Z.to_nat sizeof_cache_sb)) as H.
  unfold read_copy, copy_bytes. generalize dependent (read_bytes (disk s dev) (SB_OFFSET i) (Z.to_nat sizeof_cache_sb)).
  intros l H. unfold deserialize, take. cbv beta iota zeta.
  cbn [sb_block_size sb_bucket_size sb_data_offset].
  change U16 with (2 ^ (8 * Z.of_nat 2)). change U64 with (2 ^ (8 * Z.of_nat 8)).
  repeat split; try apply le_val_firstn_range; repeat apply Forall_skipn_byte; exact H.
Qed.

Lemma byte_array_idem n l : byte_array n (byte_array n l) = byte_array n l.
Proof.
  unfold byte_array at 1. rewrite firstn_app_len by apply length_byte_array.
  unfold byte_array. rewrite map_map. apply map_ext. intros; apply Z.mod_mod. discriminate.
Qed.

Lemma bytes_eqb_refl l : bytes_eqb l l = true.
Proof. induction l; simpl; rewrite ?Z.eqb_refl; auto. Qed.

(** The rebuilt record holds values of its fields' C types: writing it
    and reading it back gives it unchanged. *)
Lemma sb_norm_rebuild a b c su bu v :
  sb_norm (with_csum (rebuild_backing_sb a b c su bu) v)
  = with_csum (rebuild_backing_sb a b c su bu) v.
Proof.
  unfold rebuild_backing_sb, sb_zero, with_csum, with_offset, with_version, with_magic,
    with_uuid, with_set_uuid, with_bucket_size, with_block_size, with_data_offset.
  destruct (negb (c =? BDEV_DATA_START_DEFAULT)); unfold sb_norm;
    cbn [sb_csum sb_offset sb_version sb_magic sb_uuid sb_set_uuid sb_label sb_flags sb_seq
         sb_pad sb_data_offset sb_block_size sb_bucket_size sb_nr_in_set sb_nr_this_dev
         sb_last_mount sb_first_bucket sb_njournal_buckets sb_d];
    rewrite ?Zmod_mod, ?byte_array_idem; reflexivity.
Qed.

(* ------------------------------------------------------------------ *)
(** ** reset_backing_sb *)

(** A run of [reset_backing_sb] either exits with the state unchanged, or
    passes every check and appends one write of the rebuilt record. *)
Lemma reset_backing_sb_cases ck dev wipe i su bu s :
  let old := read_copy s dev i in
  let W := mk_write dev (SB_OFFSET i) (PSb (reset_record ck old su bu)) in
  reset_backing_sb ck dev wipe i su bu s = (Exit, s) \/
  (is_bcache_magic old = true /\ SB_IS_BDEV old = true
   /\ bytes_eqb (byte_array 16 (sb_uuid old)) (byte_array 16 bu) = false
   /\ bytes_eqb (byte_array 16 (sb_set_uuid old)) (byte_array 16 su) = false
   /\ sb_data_offset (rebuild_backing_sb (sb_block_size old) (sb_bucket_size old)
                                         (sb_data_offset old) su bu) = sb_data_offset old
   /\ reset_backing_sb ck dev wipe i su bu s
       = (Ok tt, mk_state (st_devs s) (st_gen s) (st_trace s ++ [W]))).
Proof.
  intros old W.
  unfold reset_backing_sb, bind, when, ret, exit_failure, open_excl, pread_sb, pwrite.
  destruct (d_open_ok (st_devs s dev)); [|left; reflexivity].
  destruct ((0 <=? SB_OFFSET i) && (SB_OFFSET i + sizeof_cache_sb <=? d_size (st_devs s dev)))
    eqn:Hr; [|left; reflexivity].
  change (deserialize (read_bytes (disk s dev) (SB_OFFSET i) (Z.to_nat sizeof_cache_sb)))
    with old.
  destruct (is_bcache_magic old) eqn:Hm; [|left; reflexivity].
  destruct wipe; [|left; reflexivity]. cbn [negb].
  destruct (SB_IS_BDEV old) eqn:Hb; [|left; reflexivity]. cbn [negb].
  destruct (bytes_eqb (byte_array 16 (sb_uuid old)) (byte_array 16 bu)) eqn:Hu;
    [left; reflexivity|].
  destruct (bytes_eqb (byte_array 16 (sb_set_uuid old)) (byte_array 16 su)) eqn:Hs;
    [left; reflexivity|].
  match goal with |- context [negb (?x =? ?y)] => destruct (x =? y) eqn:Hd end;
    cbn [negb]; [|left; reflexivity].
  right. apply Z.eqb_eq in Hd. repeat split; auto.
  cbn [payload_bytes]. rewrite length_serialize, Hr. reflexivity.
Qed.

(** Writing at copy [i] leaves the bytes of every other copy [j]. *)
Lemma copy_bytes_other s dev i j sb :
  j <> i ->
  copy_bytes (mk_state (st_devs s) (st_gen s) (st_trace s ++ [mk_write dev (SB_OFFSET i) (PSb sb)])) dev j
  = copy_bytes s dev j.
Proof.
  intros Hij. unfold copy_bytes. rewrite disk_snoc by reflexivity.
  cbn [w_off w_payload payload_bytes]. apply read_bytes_ext. intros k Hk.
  apply apply_write_miss. rewrite length_serialize.
  apply SB_OFFSET_apart; [exact Hij|]. unfold sizeof_cache_sb, SB_JOURNAL_BUCKETS in *. lia.
Qed.

(** Reading back the copy just written. *)
Lemma read_copy_written s dev i sb :
  read_copy (mk_state (st_devs s) (st_gen s) (st_trace s ++ [mk_write dev (SB_OFFSET i) (PSb sb)])) dev i
  = sb_norm sb.
Proof.
  unfold read_copy, copy_bytes. rewrite disk_snoc by reflexivity.
  cbn [w_off w_payload payload_bytes]. apply read_back_sb.
Qed.

(** [(uint64_t)(int)x] is [x] for a non-negative [x] that fits an [int]. *)
Lemma to_u64_to_int_small x : 0 <= x < 2 ^ 31 -> to_u64 (to_int x) = x.
Proof.
  intros H. unfold to_u64, to_int, U32, U64.
  rewrite (Z.mod_small (x + 2^31)) by lia. replace (x + 2^31 - 2^31) with x by lia.
  apply Z.mod_small. lia.
Qed.
(* ------------------------------------------------------------------ *)
(** ** A Hoare logic for the writes of a run *)

Lemma hoare_ret {A} P (Q : A -> Prop) a : Q a -> hoare P Q (ret a).
Proof.
  intros HQ s. unfold ret. split; [reflexivity|]. split.
  - exists []. rewrite app_nil_r. split; [reflexivity | constructor].
  - intros a' E. injection E as <-. exact HQ.
Qed.

Lemma hoare_exit {A} P (Q : A -> Prop) : hoare P Q exit_failure.
Proof.
  intros s. unfold exit_failure. split; [reflexivity|]. split; [|discriminate].
  exists []. rewrite app_nil_r. split; [reflexivity | constructor].
Qed.

Lemma hoare_bind {A B} P (Q : A -> Prop) (R : B -> Prop) m k :
  hoare P Q m -> (forall a, Q a -> hoare P R (k a)) -> hoare P R (bind m k).
Proof.
  intros Hm Hk s. unfold bind. specialize (Hm s). destruct (m s) as [[a|] s1];
    destruct Hm as (D1 & (n1 & T1 & F1) & Q1).
  - specialize (Hk a (Q1 a eq_refl) s1). destruct (k a s1) as [o2 s2].
    destruct Hk as (D2 & (n2 & T2 & F2) & Q2).
    split; [congruence|]. split; [|exact Q2].
    exists (n1 ++ n2). rewrite T2, T1, app_assoc. split; [reflexivity|]. apply Forall_app; auto.
  - split; [exact D1|]. split; [exists n1; auto | discriminate].
Qed.

Lemma hoare_weaken {A} (P P' : write -> Prop) (Q Q' : A -> Prop) m :
  (forall w, P w -> P' w) -> (forall a, Q a -> Q' a) -> hoare P Q m -> hoare P' Q' m.
Proof.
  intros HP HQ Hm s. specialize (Hm s). destruct (m s) as [o s'].
  destruct Hm as (D & (n & T & F) & Qm). split; [exact D|]. split.
  - exists n. split; [exact T|]. eapply Forall_impl; [exact HP | exact F].
  - intros a E. apply HQ, Qm, E.
Qed.

Lemma hoare_pwrite P dev off p :
  P (mk_write dev off p) -> hoare P (fun _ => True) (pwrite dev off p).
Proof.
  intros HP s. unfold pwrite.
  destruct (_ && _); (split; [reflexivity|]; split; [|auto]);
    exists [mk_write dev off p]; split; auto.
Qed.

(** A step that writes nothing. *)
Lemma hoare_nowrite {A} P (m : M A) :
  (forall s, st_devs (snd (m s)) = st_devs s /\ st_trace (snd (m s)) = st_trace s) ->
  hoare P (fun _ => True) m.
Proof.
  intros H s. specialize (H s). destruct (m s) as [o s']. destruct H as [D T].
  split; [exact D|]. split; [|auto]. exists []. rewrite app_nil_r. auto.
Qed.

Ltac nowrite_tac :=
  apply hoare_nowrite; intros s;
  repeat match goal with
         | |- context [match ?x with _ => _ end] => destruct x
         | |- context [if ?b then _ else _] => destruct b
         end; split; reflexivity.

Lemma hoare_open_excl P dev : hoare P (fun _ => True) (open_excl dev).
Proof. unfold open_excl. nowrite_tac. Qed.

Lemma hoare_pread_sb P dev off : hoare P (fun _ => True) (pread_sb dev off).
Proof. unfold pread_sb. nowrite_tac. Qed.

Lemma hoare_blkid_check P dev : hoare P (fun _ => True) (blkid_check dev).
Proof. unfold blkid_check. nowrite_tac. Qed.

Lemma hoare_getblocks P dev : hoare P (fun _ => True) (getblocks dev).
Proof. unfold getblocks. nowrite_tac. Qed.

Lemma hoare_get_blocksize P dev : hoare P (fun _ => True) (get_blocksize dev).
Proof. unfold get_blocksize. nowrite_tac. Qed.

Lemma hoare_uuid_generate P ug : hoare P (fun _ => True) (uuid_generate ug).
Proof. unfold uuid_generate. nowrite_tac. Qed.

Lemma hoare_when P b m : hoare P (fun _ => True) m -> hoare P (fun _ => True) (when b m).
Proof. intros H. destruct b; [exact H | apply hoare_ret; exact I]. Qed.

Lemma hoare_for_each P devs f :
  (forall d, hoare P (fun _ => True) (f d)) -> hoare P (fun _ => True) (for_each devs f).
Proof.
  intros H. induction devs as [|d devs IH]; simpl.
  - apply hoare_ret; exact I.
  - eapply hoare_bind; [apply H | intros; exact IH].
Qed.

Lemma hoare_zero_range dev lo off end_ fuel :
  lo <= off -> hoare (zero_write dev lo) (fun _ => True) (zero_range dev off end_ fuel).
Proof.
  revert off; induction fuel as [|f IH]; intros off Hlo; simpl.
  - apply hoare_ret; exact I.
  - destruct (off <? end_) eqn:E; [|apply hoare_ret; exact I].
    apply Z.ltb_lt in E.
    eapply hoare_bind.
    + apply hoare_pwrite. unfold zero_write. simpl. split; [reflexivity|]. split; [exact Hlo|eauto].
    + intros _ _. apply IH. unfold SB_START, SB_SECTOR.
      rewrite Z.shiftl_mul_pow2 by lia. lia.
Qed.

Lemma bucket_to_offset_mono sb a b :
  0 <= sb_bucket_size sb -> a <= b -> bucket_to_offset sb a <= bucket_to_offset sb b.
Proof.
  intros H Hab. unfold bucket_to_offset. rewrite !Z.shiftl_mul_pow2 by lia. nia.
Qed.

Lemma hoare_zero_buckets dev sb lo i n :
  0 <= sb_bucket_size sb -> lo <= i ->
  hoare (zero_write dev (bucket_to_offset sb lo)) (fun _ => True) (zero_buckets dev sb i n).
Proof.
  intros Hb. revert i; induction n as [|n IH]; intros i Hi; simpl.
  - apply hoare_ret; exact I.
  - eapply hoare_bind.
    + apply hoare_zero_range. apply bucket_to_offset_mono; assumption.
    + intros _ _. apply IH. lia.
Qed.

Lemma hoare_zero_journal dev sb :
  0 <= sb_bucket_size sb ->
  hoare (zero_write dev (bucket_to_offset sb (sb_first_bucket sb))) (fun _ => True)
    (zero_journal dev sb).
Proof. intros Hb. unfold zero_journal. apply hoare_zero_buckets; [exact Hb | lia]. Qed.

(* ------------------------------------------------------------------ *)
(** ** The secondary superblocks *)

Lemma csum_set_indep ck a b a2 a3 a4 a5 a6 a7 a8 a9 a10 a11 a12 a13 a14 a15 a16 a17 a18 a19 :
  csum_set ck (mk_sb a a2 a3 a4 a5 a6 a7 a8 a9 a10 a11 a12 a13 a14 a15 a16 a17 a18 a19)
  = csum_set ck (mk_sb b a2 a3 a4 a5 a6 a7 a8 a9 a10 a11 a12 a13 a14 a15 a16 a17 a18 a19).
Proof.
  unfold csum_set, serialize. cbn [sb_csum].
  rewrite !skipn_app_len by apply length_le_bytes. reflexivity.
Qed.

Lemma csum_set_with_csum ck sb v : csum_set ck (with_csum sb v) = csum_set ck sb.
Proof. destruct sb. apply csum_set_indep. Qed.

Lemma secondary_sb_overwrite ck sb u v u' v' :
  secondary_sb ck (secondary_sb ck sb u v) u' v' = secondary_sb ck sb u' v'.
Proof.
  destruct sb. unfold secondary_sb, with_offset, with_uuid, with_set_uuid, with_csum.
  cbv beta iota zeta. f_equal.
Qed.

Lemma secondary_writes_overwrite ck ug dev sb u v i g n :
  secondary_writes ck ug dev (secondary_sb ck sb u v) i g n = secondary_writes ck ug dev sb i g n.
Proof.
  revert i g; induction n as [|n IH]; intros i g; simpl; [reflexivity|].
  rewrite secondary_sb_overwrite, IH. reflexivity.
Qed.

Lemma write_secondaries_run ck ug dev sb i n s :
  let '(o, s') := write_secondaries ck ug dev sb i n s in
  st_devs s' = st_devs s
  /\ exists m, (m <= n)%nat
     /\ st_trace s' = st_trace s ++ firstn m (secondary_writes ck ug dev sb i (st_gen s) n)
     /\ (o = Ok tt -> m = n).
Proof.
  revert sb i s; induction n as [|n IH]; intros sb i s.
  - simpl. unfold ret. split; [reflexivity|]. exists O. simpl. rewrite app_nil_r. auto.
  - cbn [write_secondaries]. unfold bind, uuid_generate, pwrite. cbv beta iota zeta.
    cbn [st_devs st_gen st_trace].
    change (with_csum (with_set_uuid (with_uuid (with_offset sb SB_SECTOR) ?u) ?v)
              (csum_set ck (with_set_uuid (with_uuid (with_offset sb SB_SECTOR) ?u) ?v)))
      with (secondary_sb ck sb u v).
    set (w := mk_write dev (SB_OFFSET i) (PSb (secondary_sb ck sb (byte_array 16 (ug (st_gen s)))
                                                  (byte_array 16 (ug (S (st_gen s))))))).
    destruct (_ && _).
    + set (s3 := mk_state (st_devs s) (S (S (st_gen s))) (st_trace s ++ [w])).
      specialize (IH (secondary_sb ck sb (byte_array 16 (ug (st_gen s))) (byte_array 16 (ug (S (st_gen s)))))
                     (i + 1) s3).
      destruct (write_secondaries ck ug dev _ (i + 1) n s3) as [o s'].
      destruct IH as (D & m & Hm & T & Ho). split; [exact D|].
      exists (S m). split; [lia|]. split.
      * rewrite T. cbn [st_trace s3 secondary_writes firstn]. subst s3. cbn [st_trace st_gen].
        rewrite secondary_writes_overwrite, <- app_assoc. reflexivity.
      * intros E. rewrite (Ho E). reflexivity.
    + split; [reflexivity|]. exists 1%nat. split; [lia|]. split; [reflexivity | discriminate].
Qed.

(* ------------------------------------------------------------------ *)
(** ** Successful runs, step by step *)

Lemma bind_ok {A B} (m : M A) (k : A -> M B) s b s' :
  bind m k s = (Ok b, s') -> exists a s1, m s = (Ok a, s1) /\ k a s1 = (Ok b, s').
Proof.
  unfold bind. destruct (m s) as [[a|] s1]; [|discriminate]. intros H. eauto.
Qed.

Lemma open_excl_ok dev s a s1 : open_excl dev s = (Ok a, s1) -> s1 = s.
Proof. unfold open_excl. destruct (d_open_ok _); congruence. Qed.

Lemma pread_sb_ok dev off s a s1 :
  pread_sb dev off s = (Ok a, s1) ->
  s1 = s /\ a = deserialize (read_bytes (disk s dev) off (Z.to_nat sizeof_cache_sb)).
Proof. unfold pread_sb. destruct (_ && _); intros H; inversion H; auto. Qed.

Lemma blkid_check_ok dev s a s1 : blkid_check dev s = (Ok a, s1) -> s1 = s.
Proof.
  unfold blkid_check. destruct (d_probe _) as [r|]; [destruct (r =? 0)|]; congruence.
Qed.

Lemma getblocks_ok dev s a s1 :
  getblocks dev s = (Ok a, s1) -> s1 = s /\ a = to_u64 (d_size (st_devs s dev) / 512).
Proof. unfold getblocks. intros H; inversion H; auto. Qed.

Lemma when_exit_ok b s (a : unit) s1 :
  when b (@exit_failure unit) s = (Ok a, s1) -> s1 = s /\ b = false.
Proof. unfold when, exit_failure, ret. destruct b; intros H; inversion H; auto. Qed.

Lemma ret_ok {A} (x : A) s a s1 : ret x s = (Ok a, s1) -> s1 = s /\ a = x.
Proof. unfold ret. intros H; inversion H; auto. Qed.

Lemma exit_not_ok {A} s (a : A) s1 : exit_failure s = (Ok a, s1) -> False.
Proof. unfold exit_failure. discriminate. Qed.

Lemma pwrite_ok dev off p s a s1 :
  pwrite dev off p s = (Ok a, s1) ->
  s1 = mk_state (st_devs s) (st_gen s) (st_trace s ++ [mk_write dev off p]).
Proof. unfold pwrite. destruct (_ && _); intros H; inversion H; auto. Qed.

Lemma marker_ok dev (alc skip : bool) s (a : unit) s1 :
  (if alc then pwrite dev 0 (PMarker "alcubierre"%string)
   else if skip then pwrite dev 0 (PMarker "##skipudev"%string) else ret tt) s = (Ok a, s1) ->
  st_devs s1 = st_devs s /\ st_gen s1 = st_gen s
  /\ exists ws, st_trace s1 = st_trace s ++ ws /\ Forall (head_write dev) ws.
Proof.
  intros H. destruct alc; [|destruct skip].
  1,2: apply pwrite_ok in H; subst s1; cbn; split; [reflexivity|]; split; [reflexivity|];
       eexists; split; [reflexivity|]; constructor; [|constructor];
       unfold head_write; cbn; split; [reflexivity|]; split; [reflexivity|]; right; eauto.
  apply ret_ok in H as [-> _]. split; [reflexivity|]. split; [reflexivity|].
  exists []. rewrite app_nil_r. split; [reflexivity | constructor].
Qed.

Lemma length_secondary_writes ck ug dev sb i g n :
  length (secondary_writes ck ug dev sb i g n) = n.
Proof. revert i g; induction n; intros; simpl; auto. Qed.

Lemma SB_IS_BDEV_backing ck bs bk su bu wb dirty doff :
  let X := backing_setup (new_sb bs bk su true bu) wb dirty doff in
  SB_IS_BDEV (with_csum X (csum_set ck X)) = true.
Proof. unfold backing_setup. destruct (negb _), dirty, wb; reflexivity. Qed.

(** A successful format of a backing device: after the head writes, the
    primary record at [SB_START], then the secondary records. *)
Lemma write_sb_backing_ok ck ug alc skip dev bs bk wb disc wipe pol doff su bu dirty N s s' :
  write_sb ck ug alc skip dev bs bk wb disc wipe pol doff su true bu dirty N s = (Ok tt, s') ->
  let X := backing_setup (new_sb bs bk su true bu) wb dirty doff in
  let sb0 := with_csum X (csum_set ck X) in
  st_devs s' = st_devs s
  /\ exists pre, Forall (head_write dev) pre
     /\ st_trace s' = st_trace s ++ pre ++ [mk_write dev SB_START (PSb sb0)]
                      ++ secondary_writes ck ug dev sb0 1 (st_gen s) (Z.to_nat (N - 1)).
Proof.
  intros H X sb0. unfold write_sb in H.
  apply bind_ok in H as (? & s1 & H1 & H). apply open_excl_ok in H1; subst s1.
  apply bind_ok in H as (old & s2 & H2 & H). apply pread_sb_ok in H2 as [-> _].
  apply bind_ok in H as (? & s3 & H3 & H). apply when_exit_ok in H3 as [-> _].
  apply bind_ok in H as (? & s4 & H4 & H). apply blkid_check_ok in H4; subst s4.
  apply bind_ok in H as (sb & s5 & H5 & H).
  replace (SB_IS_BDEV (new_sb bs bk su true bu)) with true in H5 by reflexivity.
  destruct (_ <? _) in H5; [apply exit_not_ok in H5; contradiction|].
  apply ret_ok in H5 as [-> ->]. fold X in H. fold sb0 in H.
  apply bind_ok in H as (? & s6 & H6 & H). apply pwrite_ok in H6; subst s6.
  apply bind_ok in H as (? & s7 & H7 & H). apply marker_ok in H7 as (D7 & G7 & ws & T7 & F7).
  apply bind_ok in H as (? & s8 & H8 & H). apply pwrite_ok in H8; subst s8.
  apply bind_ok in H as (? & s9 & H9 & H). apply ret_ok in H as [-> _].
  assert (HB : SB_IS_BDEV sb0 = true) by apply SB_IS_BDEV_backing.
  rewrite HB in H9.
  pose proof (write_secondaries_run ck ug dev sb0 1 (Z.to_nat (N - 1))
                (mk_state (st_devs s7) (st_gen s7) (st_trace s7 ++ [mk_write dev SB_START (PSb sb0)])))
    as R.
  rewrite H9 in R. destruct R as (D9 & m & Hm & T9 & Ho).
  specialize (Ho ltac:(destruct x5; reflexivity)). subst m.
  rewrite firstn_all2 in T9 by (rewrite length_secondary_writes; lia).
  cbn [st_devs st_gen st_trace] in D9, T9, D7, G7, T7.
  split; [congruence|].
  exists (mk_write dev 0 (PZeros SB_START) :: ws). split.
  - constructor; [|exact F7]. unfold head_write. cbn. auto.
  - rewrite T9, T7, G7. cbn. rewrite <- !app_assoc. reflexivity.
Qed.

Lemma secondary_writes_map ck ug dev sb i g n :
  secondary_writes ck ug dev sb i g n
  = map (fun k => mk_write dev (SB_OFFSET (i + Z.of_nat k))
                    (PSb (secondary_sb ck sb (byte_array 16 (ug (g + 2 * k)%nat))
                            (byte_array 16 (ug (S (g + 2 * k))%nat)))))
        (seq 0 n).
Proof.
  revert i g; induction n as [|n IH]; intros i g; [reflexivity|].
  cbn [secondary_writes seq map]. rewrite IH, <- seq_shift, map_map.
  replace (i + Z.of_nat 0) with i by lia. replace (g + 2 * 0)%nat with g by lia.
  f_equal. apply map_ext. intros k.
  replace (i + 1 + Z.of_nat k) with (i + Z.of_nat (S k)) by lia.
  replace (S (S g) + 2 * k)%nat with (g + 2 * S k)%nat by lia. reflexivity.
Qed.

Lemma secondary_sb_fields ck sb u v :
  let r := secondary_sb ck sb u v in
  sb_block_size r = sb_block_size sb /\ sb_bucket_size r = sb_bucket_size sb
  /\ sb_version r = sb_version sb /\ sb_data_offset r = sb_data_offset sb
  /\ sb_flags r = sb_flags sb /\ sb_uuid r = u /\ sb_set_uuid r = v
  /\ sb_csum r = csum_set ck r.
Proof.
  destruct sb. cbn zeta. unfold secondary_sb. rewrite csum_set_with_csum.
  cbn. repeat split. unfold csum_set. apply Z.mod_mod. discriminate.
Qed.

Lemma csum_with_csum_set ck X :
  sb_csum (with_csum X (csum_set ck X)) = csum_set ck (with_csum X (csum_set ck X)).
Proof.
  rewrite csum_set_with_csum. destruct X. cbn. unfold csum_set. apply Z.mod_mod. discriminate.
Qed.

Lemma SB_IS_BDEV_cache ck bs bk su bu blocks disc pol :
  let Y := cache_flags (cache_geometry (new_sb bs bk su false bu) blocks) disc pol in
  SB_IS_BDEV (with_csum Y (csum_set ck Y)) = false.
Proof. reflexivity. Qed.

(** A successful format of a cache device: after the head writes, the
    primary record at [SB_START], then the journal zeroing. *)
Lemma write_sb_cache_ok ck ug alc skip dev bs bk wb disc wipe pol doff su bu dirty N s s' :
  write_sb ck ug alc skip dev bs bk wb disc wipe pol doff su false bu dirty N s = (Ok tt, s') ->
  let Y := cache_flags (cache_geometry (new_sb bs bk su false bu)
                          (to_u64 (d_size (st_devs s dev) / 512))) disc pol in
  let sb0 := with_csum Y (csum_set ck Y) in
  st_devs s' = st_devs s
  /\ exists pre post, Forall (head_write dev) pre
     /\ Forall (zero_write dev (bucket_to_offset sb0 (sb_first_bucket sb0))) post
     /\ st_trace s' = st_trace s ++ pre ++ [mk_write dev SB_START (PSb sb0)] ++ post.
Proof.
  intros H Y sb0. unfold write_sb in H.
  apply bind_ok in H as (? & s1 & H1 & H). apply open_excl_ok in H1; subst s1.
  apply bind_ok in H as (old & s2 & H2 & H). apply pread_sb_ok in H2 as [-> _].
  apply bind_ok in H as (? & s3 & H3 & H). apply when_exit_ok in H3 as [-> _].
  apply bind_ok in H as (? & s4 & H4 & H). apply blkid_check_ok in H4; subst s4.
  apply bind_ok in H as (sb & s5 & H5 & H).
  replace (SB_IS_BDEV (new_sb bs bk su false bu)) with false in H5 by reflexivity.
  apply bind_ok in H5 as (blocks & s5' & G5 & H5). apply getblocks_ok in G5 as [-> ->].
  destruct (_ =? 0) in H5; [apply exit_not_ok in H5; contradiction|].
  destruct (_ <? _) in H5; [apply exit_not_ok in H5; contradiction|].
  apply ret_ok in H5 as [-> ->]. fold Y in H. fold sb0 in H.
  apply bind_ok in H as (? & s6 & H6 & H). apply pwrite_ok in H6; subst s6.
  apply bind_ok in H as (? & s7 & H7 & H). apply marker_ok in H7 as (D7 & G7 & ws & T7 & F7).
  apply bind_ok in H as (? & s8 & H8 & H). apply pwrite_ok in H8; subst s8.
  apply bind_ok in H as (? & s9 & H9 & H). apply ret_ok in H as [-> _].
  assert (HB : SB_IS_BDEV sb0 = false) by apply SB_IS_BDEV_cache.
  rewrite HB in H9.
  assert (Hb : 0 <= sb_bucket_size sb0) by (cbn; apply Z.mod_pos_bound; reflexivity).
  pose proof (hoare_zero_journal dev sb0 Hb
                (mk_state (st_devs s7) (st_gen s7) (st_trace s7 ++ [mk_write dev SB_START (PSb sb0)])))
    as R.
  rewrite H9 in R. destruct R as (D9 & (post & T9 & F9) & _).
  cbn [st_devs st_gen st_trace] in D9, T9, D7, G7, T7.
  split; [congruence|].
  exists (mk_write dev 0 (PZeros SB_START) :: ws), post. split; [|split; [exact F9|]].
  - constructor; [|exact F7]. unfold head_write. cbn. auto.
  - rewrite T9, T7. cbn. rewrite <- !app_assoc. reflexivity.
Qed.

(** Journal zeroing starts past the primary record. *)
Lemma journal_after_primary sb :
  0 < sb_bucket_size sb < U16 ->
  SB_START + sizeof_cache_sb <= bucket_to_offset sb ((23 / sb_bucket_size sb + 1) mod U16).
Proof.
  intros Hb. set (b := sb_bucket_size sb) in *.
  assert (Hq : 0 <= 23 / b <= 23) by (split; [apply Z.div_pos | apply Z.div_le_upper_bound]; nia).
  rewrite Z.mod_small by (unfold U16 in *; lia).
  pose proof (Z.div_mod 23 b ltac:(lia)). pose proof (Z.mod_pos_bound 23 b ltac:(lia)).
  unfold bucket_to_offset, SB_START, SB_SECTOR, sizeof_cache_sb, SB_JOURNAL_BUCKETS.
  fold b. rewrite !Z.shiftl_mul_pow2 by lia. nia.
Qed.

(* ------------------------------------------------------------------ *)
(** ** All the writes of [write_sb], [reset_backing_sb] and [main] *)

Lemma Forall_firstn_l {A} (P : A -> Prop) n l : Forall P l -> Forall P (firstn n l).
Proof. revert l; induction n; intros [|x l] H; simpl; auto. inversion H; auto. Qed.

Lemma hoare_write_secondaries P ck ug dev sb i n :
  (forall k u v, P (mk_write dev (SB_OFFSET (i + Z.of_nat k)) (PSb (secondary_sb ck sb u v)))) ->
  hoare P (fun _ => True) (write_secondaries ck ug dev sb i n).
Proof.
  intros HP s. pose proof (write_secondaries_run ck ug dev sb i n s) as R.
  destruct (write_secondaries ck ug dev sb i n s) as [o s'].
  destruct R as (D & m & _ & T & _). split; [exact D|]. split; [|auto].
  eexists; split; [exact T|]. apply Forall_firstn_l.
  rewrite secondary_writes_map. apply Forall_forall. intros w Hw.
  apply in_map_iff in Hw as (k & <- & _). apply HP.
Qed.

Lemma SB_IS_BDEV_new_sb bs bk su bdev bu : SB_IS_BDEV (new_sb bs bk su bdev bu) = bdev.
Proof. destruct bdev; reflexivity. Qed.

(** Every write of a [write_sb] run satisfies [P] when the zero writes, the
    marker, the primary record and the secondary records do. *)
Lemma hoare_write_sb P ck ug alc skip dev bs bk wb disc wipe pol doff su bdev bu dirty N :
  (forall off len, P (mk_write dev off (PZeros len))) ->
  (forall m, P (mk_write dev 0 (PMarker m))) ->
  (forall sb, (bdev = true /\ sb = backing_setup (new_sb bs bk su bdev bu) wb dirty doff)
              \/ (bdev = false /\ exists blocks,
                     sb = cache_flags (cache_geometry (new_sb bs bk su bdev bu) blocks) disc pol) ->
     let sb0 := with_csum sb (csum_set ck sb) in
     P (mk_write dev SB_START (PSb sb0))
     /\ forall k u v, P (mk_write dev (SB_OFFSET (1 + Z.of_nat k)) (PSb (secondary_sb ck sb0 u v)))) ->
  hoare P (fun _ => True) (write_sb ck ug alc skip dev bs bk wb disc wipe pol doff su bdev bu dirty N).
Proof.
  intros HZ HM HS. unfold write_sb.
  eapply hoare_bind; [apply hoare_open_excl | intros _ _].
  eapply hoare_bind; [apply hoare_pread_sb | intros old _].
  eapply hoare_bind; [apply hoare_when, hoare_exit | intros _ _].
  eapply hoare_bind; [apply hoare_blkid_check | intros _ _].
  eapply hoare_bind with
    (Q := fun sb => (bdev = true /\ sb = backing_setup (new_sb bs bk su bdev bu) wb dirty doff)
                    \/ (bdev = false /\ exists blocks,
                           sb = cache_flags (cache_geometry (new_sb bs bk su bdev bu) blocks) disc pol)).
  - rewrite SB_IS_BDEV_new_sb. destruct bdev.
    + destruct (_ <? _); [apply hoare_exit | apply hoare_ret; left; auto].
    + eapply hoare_bind; [apply hoare_getblocks | intros blocks _].
      destruct (_ =? 0); [apply hoare_exit|].
      destruct (_ <? _); [apply hoare_exit | apply hoare_ret; right; eauto].
  - intros sb Hsb. destruct (HS sb Hsb) as [HP HQ].
    assert (Hb : 0 <= sb_bucket_size (with_csum sb (csum_set ck sb))).
    { destruct Hsb as [[_ ->] | [_ [blocks ->]]].
      - unfold backing_setup. destruct dirty, wb, (negb _); cbn; apply Z.mod_pos_bound; reflexivity.
      - cbn. apply Z.mod_pos_bound; reflexivity. }
    eapply hoare_bind; [apply hoare_pwrite, HZ | intros _ _].
    eapply hoare_bind; [destruct alc; [apply hoare_pwrite, HM | destruct skip;
      [apply hoare_pwrite, HM | apply hoare_ret; exact I]] | intros _ _].
    eapply hoare_bind; [apply hoare_pwrite, HP | intros _ _].
    eapply hoare_bind; [| intros _ _; apply hoare_ret; exact I].
    destruct (SB_IS_BDEV _).
    + apply hoare_write_secondaries. exact HQ.
    + eapply hoare_weaken; [| intros _ _; exact I | apply (hoare_zero_journal dev _ Hb)].
      intros w (E & _ & len & Ep). destruct w; cbn in *; subst. apply HZ.
Qed.


Lemma hoare_max_blocksize P bs devs : hoare P (fun _ => True) (max_blocksize bs devs).
Proof.
  revert bs; induction devs as [|d devs IH]; intros bs; simpl.
  - apply hoare_ret; exact I.
  - eapply hoare_bind; [apply hoare_get_blocksize | intros b _; apply IH].
Qed.

(** [main] writes only through the reset of a backing device or the
    formats of its devices, with the parameters the options set. *)
Lemma hoare_main_after_uuids P (Qc : cfg -> Prop) ck ug NMAX DOFF su bu os :
  (forall c, process_opts NMAX (main_defaults su bu) os = Some c -> Qc c) ->
  (forall c, Qc c ->
     (0 <= c_sb_idx c -> forall dev,
        hoare P (fun _ => True) (reset_backing_sb ck dev (c_wipe_bcache c) (c_sb_idx c)
                                   (c_set_uuid c) (c_bdev_uuid c)))
     /\ (c_sb_idx c < 0 -> forall dev bs doff bdev N,
        hoare P (fun _ => True)
          (write_sb ck ug (c_alcubierre_dev c) (c_skip_udev_register c) dev bs (c_bucket_size c)
             (c_writeback c) (c_discard c) (c_wipe_bcache c) (c_cache_replacement_policy c) doff
             (c_set_uuid c) bdev (c_bdev_uuid c) (c_dirty c) N))) ->
  hoare P (fun _ => True) (main_after_uuids ck ug NMAX DOFF su bu os).
Proof.
  intros HQ HK. unfold main_after_uuids.
  eapply hoare_bind with (Q := Qc).
  { destruct (process_opts NMAX (main_defaults su bu) os) as [c|] eqn:E;
      [apply hoare_ret, HQ; reflexivity | apply hoare_exit]. }
  intros c Hc. destruct (HK c Hc) as [HR HW].
  eapply hoare_bind; [apply hoare_when, hoare_exit | intros _ _].
  eapply hoare_bind with (Q := fun _ => True).
  { destruct (_ =? 0); [|apply hoare_ret; exact I].
    eapply hoare_bind; [apply hoare_max_blocksize | intros; apply hoare_max_blocksize]. }
  intros bs _.
  eapply hoare_bind; [apply hoare_when, hoare_exit | intros _ _].
  eapply hoare_bind with (Q := fun _ => True).
  { destruct (_ =? _); [apply hoare_ret; exact I|].
    destruct (_ <? _); [apply hoare_exit | apply hoare_ret; exact I]. }
  intros doff _.
  destruct (c_sb_idx c >=? 0) eqn:Ei.
  - apply Z.geb_le in Ei. destruct (c_backing_devices c) as [|d [|d' l]];
      [apply hoare_exit | apply HR; lia | apply hoare_exit].
  - rewrite Z.geb_leb, Z.leb_gt in Ei.
    eapply hoare_bind; [apply hoare_for_each; intros d; apply HW; lia | intros _ _].
    apply hoare_for_each; intros d; apply HW; lia.
Qed.

(** What the option loop does to the dirty flag, the reset index and the
    two uuids. *)
Lemma process_opt_fields NMAX c o c' :
  process_opt NMAX c o = Some c' ->
  c_dirty c' = c_dirty c || sets_bdev_uuid o
  /\ (is_reset_opt o = false -> c_sb_idx c' = c_sb_idx c)
  /\ (is_uuid_opt o = false -> c_set_uuid c' = c_set_uuid c /\ c_bdev_uuid c' = c_bdev_uuid c).
Proof.
  intros E. destruct c, o; cbn [process_opt sets_bdev_uuid is_reset_opt is_uuid_opt] in *; unfold option_map in E;
    repeat match goal with
           | E : context [match ?x with _ => _ end] |- _ => destruct x
           | E : context [if ?b then _ else _] |- _ => destruct b
           end; try discriminate; injection E as <-; cbn;
    rewrite ?orb_false_r, ?orb_true_r; repeat split; auto; discriminate.
Qed.

Lemma process_opts_fields NMAX c os c' :
  process_opts NMAX c os = Some c' ->
  c_dirty c' = c_dirty c || existsb sets_bdev_uuid os
  /\ (Forall (fun o => is_reset_opt o = false) os -> c_sb_idx c' = c_sb_idx c)
  /\ (Forall (fun o => is_uuid_opt o = false) os ->
      c_set_uuid c' = c_set_uuid c /\ c_bdev_uuid c' = c_bdev_uuid c).
Proof.
  revert c; induction os as [|o os IH]; intros c E.
  - injection E as <-. rewrite orb_false_r. auto.
  - cbn [process_opts] in E. destruct (process_opt NMAX c o) as [c1|] eqn:E1; [|discriminate].
    destruct (process_opt_fields _ _ _ _ E1) as (D1 & I1 & U1).
    destruct (IH c1 E) as (D2 & I2 & U2). split; [|split].
    + rewrite D2, D1. cbn [existsb]. apply eq_sym, orb_assoc.
    + intros F. inversion F; subst. rewrite I2, I1; auto.
    + intros F. inversion F; subst. destruct (U2 ltac:(assumption)) as [-> ->]. auto.
Qed.

Lemma main_unfold ck ug NMAX DOFF os s :
  main ck ug NMAX DOFF os s
  = main_after_uuids ck ug NMAX DOFF (byte_array 16 (ug (st_gen s)))
      (byte_array 16 (ug (S (st_gen s)))) os
      (mk_state (st_devs s) (S (S (st_gen s))) (st_trace s)).
Proof. reflexivity. Qed.

(** The state and the uuids of the record [write_sb] builds. *)
Lemma write_sb_record_state ck bs bk su bdev bu wb dirty doff disc pol sb :
  (bdev = true /\ sb = backing_setup (new_sb bs bk su bdev bu) wb dirty doff)
  \/ (bdev = false /\ exists blocks,
        sb = cache_flags (cache_geometry (new_sb bs bk su bdev bu) blocks) disc pol) ->
  SB_IS_BDEV (with_csum sb (csum_set ck sb)) = true ->
  BDEV_STATE (with_csum sb (csum_set ck sb))
  = if dirty then BDEV_STATE_DIRTY else BDEV_STATE_NONE.
Proof.
  intros [[-> ->] | [-> [blocks ->]]] HB.
  - unfold backing_setup. destruct dirty, wb, (negb _); reflexivity.
  - pose proof (SB_IS_BDEV_cache ck bs bk su bu blocks disc pol) as F. cbv zeta in F. congruence.
Qed.




(* ================================================================== *)
(** * Claims *)

(** C1 (amended).  Resetting copy [i] of a backing device leaves every
    other copy [j <> i] byte-identical; when it succeeds, copy [i] reads
    back as the record rebuilt from scratch ([reset_record]): the new
    device and set uuids, the old block size, bucket size and data offset,
    a recomputed version and checksum, and every other field (the flags
    holding the cache mode and dirty state, the label, the sequence
    number, ...) zero. *)
Theorem reset_backing_sb_copies ck dev wipe i j su bu s :
  j <> i ->
  let '(o, s') := reset_backing_sb ck dev wipe i su bu s in
  copy_bytes s' dev j = copy_bytes s dev j
  /\ (o = Ok tt -> read_copy s' dev i = reset_record ck (read_copy s dev i) su bu).
Proof.
  intros Hij.
  destruct (reset_backing_sb_cases ck dev wipe i su bu s) as [E | (_ & _ & _ & _ & _ & E)];
    rewrite E.
  - split; [reflexivity | discriminate].
  - split; [apply copy_bytes_other; exact Hij|]. intros _.
    rewrite read_copy_written. unfold reset_record. apply sb_norm_rebuild.
Qed.

(** C2.  The record a reset writes back at copy [i] carries the block
    size, bucket size and data offset of the record read there, and its
    version is [BCACHE_SB_VERSION_BDEV_WITH_OFFSET] when that data offset
    differs from [BDEV_DATA_START_DEFAULT], [BCACHE_SB_VERSION_BDEV]
    otherwise.  A reset writes at most this one record, exactly one when
    it succeeds; the default data offset itself is never written back
    (the rebuilt record's data offset stays 0 and the reset exits). *)
Theorem reset_backing_sb_preserves ck dev wipe i su bu s :
  let '(o, s') := reset_backing_sb ck dev wipe i su bu s in
  exists new, st_trace s' = st_trace s ++ new
  /\ (o = Ok tt -> length new = 1%nat)
  /\ forall w, In w new -> exists r, w = mk_write dev (SB_OFFSET i) (PSb r)
       /\ sb_block_size r = sb_block_size (read_copy s dev i)
       /\ sb_bucket_size r = sb_bucket_size (read_copy s dev i)
       /\ sb_data_offset r = sb_data_offset (read_copy s dev i)
       /\ sb_version r = (if sb_data_offset (read_copy s dev i) =? BDEV_DATA_START_DEFAULT
                          then BCACHE_SB_VERSION_BDEV
                          else BCACHE_SB_VERSION_BDEV_WITH_OFFSET)
       /\ sb_data_offset (read_copy s dev i) <> BDEV_DATA_START_DEFAULT.
Proof.
  pose proof (read_copy_ranges s dev i) as (Hbs & Hbk & Hdo).
  destruct (reset_backing_sb_cases ck dev wipe i su bu s) as [E | (_ & _ & _ & _ & Hd & E)];
    rewrite E.
  - exists []. rewrite app_nil_r. split; [reflexivity|]. split; [discriminate|]. intros w [].
  - eexists. split; [reflexivity|]. split; [reflexivity|].
    intros w [<- | []]. eexists. split; [reflexivity|].
    set (old := read_copy s dev i) in *. clearbody old.
    unfold reset_record, rebuild_backing_sb in *.
    destruct (sb_data_offset old =? BDEV_DATA_START_DEFAULT) eqn:Ed; cbn [negb] in *.
    + cbn in Hd. apply Z.eqb_eq in Ed. unfold BDEV_DATA_START_DEFAULT in Ed. lia.
    + apply Z.eqb_neq in Ed. unfold U16, U64 in *.
      cbn [with_csum with_offset with_version with_magic with_uuid with_set_uuid
           with_bucket_size with_block_size with_data_offset sb_zero
           sb_block_size sb_bucket_size sb_data_offset sb_version].
      rewrite !Z.mod_small by (unfold U16, U64; lia).
      repeat split; auto.
Qed.

(** C3.  A reset exits, leaving the state (and so every device) as it
    was, when the record read at the targeted copy lacks the bcache magic,
    when the supplied device uuid equals the record's, or when the
    supplied set uuid equals the record's. *)
Theorem reset_backing_sb_rejects ck dev wipe i su bu s :
  is_bcache_magic (read_copy s dev i) = false
  \/ byte_array 16 (sb_uuid (read_copy s dev i)) = byte_array 16 bu
  \/ byte_array 16 (sb_set_uuid (read_copy s dev i)) = byte_array 16 su ->
  reset_backing_sb ck dev wipe i su bu s = (Exit, s).
Proof.
  intros H.
  destruct (reset_backing_sb_cases ck dev wipe i su bu s) as [E | (Hm & _ & Hu & Hs & _ & _)];
    [exact E|].
  exfalso. destruct H as [H | [H | H]].
  - congruence.
  - rewrite H, bytes_eqb_refl in Hu. discriminate.
  - rewrite H, bytes_eqb_refl in Hs. discriminate.
Qed.

Lemma reset_backing_sb_copies_witness :
  1 <> 0 /\
  let '(o, s') := reset_backing_sb ex_checksum "b"%string true 0 (repeat 3 16) (repeat 4 16) ex_formatted in
  copy_bytes s' "b"%string 1 = copy_bytes ex_formatted "b"%string 1
  /\ (o = Ok tt -> read_copy s' "b"%string 0
                   = reset_record ex_checksum (read_copy ex_formatted "b"%string 0) (repeat 3 16) (repeat 4 16)).
Proof.
  split; [lia|].
  exact (reset_backing_sb_copies ex_checksum "b"%string true 0 1 (repeat 3 16) (repeat 4 16)
           ex_formatted ltac:(lia)).
Defined.

(** C1, the claim as stated fails: resetting copy 0 of a device formatted
    in writeback mode and dirty succeeds, and the copy then reads back with
    the writethrough cache mode and the state [BDEV_STATE_NONE]; the flags
    are not among the identifiers and checksum the claim lets change. *)
Lemma reset_backing_sb_clears_flags :
  let '(o, s') := reset_backing_sb ex_checksum "b"%string true 0 (repeat 3 16) (repeat 4 16) ex_formatted in
  o = Ok tt
  /\ BDEV_CACHE_MODE (read_copy ex_formatted "b"%string 0) = CACHE_MODE_WRITEBACK
  /\ BDEV_STATE (read_copy ex_formatted "b"%string 0) = BDEV_STATE_DIRTY
  /\ BDEV_CACHE_MODE (read_copy s' "b"%string 0) = CACHE_MODE_WRITETHROUGH
  /\ BDEV_STATE (read_copy s' "b"%string 0) = BDEV_STATE_NONE.
Proof. vm_compute. repeat split. Qed.

Lemma reset_backing_sb_rejects_witness :
  (is_bcache_magic (read_copy ex_formatted "b"%string 0) = false
   \/ byte_array 16 (sb_uuid (read_copy ex_formatted "b"%string 0)) = byte_array 16 (repeat 2 16)
   \/ byte_array 16 (sb_set_uuid (read_copy ex_formatted "b"%string 0)) = byte_array 16 (repeat 3 16))
  /\ reset_backing_sb ex_checksum "b"%string true 0 (repeat 3 16) (repeat 2 16) ex_formatted
     = (Exit, ex_formatted).
Proof.
  assert (H : byte_array 16 (sb_uuid (read_copy ex_formatted "b"%string 0))
              = byte_array 16 (repeat 2 16)) by (vm_compute; reflexivity).
  split; [right; left; exact H|].
  apply reset_backing_sb_rejects. right; left; exact H.
Defined.

(** C5.  Formatting a backing device ([bdev] true) with a data offset
    (a [uint64_t]) below [BDEV_DATA_START_DEFAULT + sb_num * SB_SECTOR],
    the room of [sb_num] superblock copies, exits before any write: the
    state, and so every device, is left as it was.  The bound is computed
    in [int], taken here without overflow. *)
Theorem write_sb_rejects_small_data_offset ck ug alc skip dev bs bk wb disc wipe pol
    data_offset su bu dirty sb_num s :
  0 <= data_offset < U64 -> 0 <= sb_num ->
  BDEV_DATA_START_DEFAULT + sb_num * SB_SECTOR < 2 ^ 31 ->
  data_offset < BDEV_DATA_START_DEFAULT + sb_num * SB_SECTOR ->
  write_sb ck ug alc skip dev bs bk wb disc wipe pol data_offset su true bu dirty sb_num s
  = (Exit, s).
Proof.
  intros Hd Hn Hw Hlt.
  unfold write_sb, bind, when, ret, exit_failure, open_excl, pread_sb, blkid_check.
  destruct (d_open_ok (st_devs s dev)); [|reflexivity].
  destruct (_ && _); [|reflexivity].
  destruct (_ && negb wipe); [reflexivity|].
  destruct (d_probe (st_devs s dev)) as [r|]; [|reflexivity].
  destruct (r =? 0); [reflexivity|].
  rewrite to_u64_to_int_small by (unfold BDEV_DATA_START_DEFAULT, SB_SECTOR in *; lia).
  match goal with |- context [SB_IS_BDEV ?x] => replace (SB_IS_BDEV x) with true by reflexivity end.
  match goal with |- context [sb_data_offset ?x <? ?y] => replace (sb_data_offset x <? y) with true end.
  - reflexivity.
  - symmetry. apply Z.ltb_lt.
    assert (H16 : BDEV_DATA_START_DEFAULT = 16) by reflexivity.
    assert (H8 : SB_SECTOR = 8) by reflexivity.
    set (T := BDEV_DATA_START_DEFAULT + sb_num * SB_SECTOR) in *.
    assert (HT : 0 < T) by (subst T; lia). clearbody T.
    unfold backing_setup. destruct (negb (data_offset =? BDEV_DATA_START_DEFAULT)); destruct dirty;
      cbn; rewrite ?Z.mod_small by (unfold U64 in *; lia); lia.
Qed.

Lemma write_sb_rejects_small_data_offset_witness :
  (0 <= 20 < U64 /\ 0 <= 2 /\ BDEV_DATA_START_DEFAULT + 2 * SB_SECTOR < 2 ^ 31
   /\ 20 < BDEV_DATA_START_DEFAULT + 2 * SB_SECTOR)
  /\ write_sb ex_checksum ex_uuid_gen false false "b"%string 8 1024 false false false 0 20
       (repeat 1 16) true (repeat 2 16) false 2 ex_state = (Exit, ex_state).
Proof.
  assert (H : 0 <= 20 < U64 /\ 0 <= 2 /\ BDEV_DATA_START_DEFAULT + 2 * SB_SECTOR < 2 ^ 31
              /\ 20 < BDEV_DATA_START_DEFAULT + 2 * SB_SECTOR) by (vm_compute; repeat split; discriminate).
  split; [exact H|].
  destruct H as (H1 & H2 & H3 & H4).
  exact (write_sb_rejects_small_data_offset ex_checksum ex_uuid_gen false false "b"%string 8 1024
           false false false 0 20 (repeat 1 16) (repeat 2 16) false 2 ex_state H1 H2 H3 H4).
Defined.

(** C7 (a defect of the code).  The size ["18014398509481985k"] denotes
    [(2^54 + 1) * 1024 = 2^64 + 1024] bytes, not a power of two, yet
    [hatoi_validate] accepts it as 2 sectors: the [long long] product of
    [hatoi] wraps around to 1024. *)
Theorem hatoi_validate_accepts_wrapped :
  hatoi_validate (list_ascii_of_string "18014398509481985k"%string) = Some 2.
Proof. vm_compute. reflexivity. Qed.

(** C8.  When [/sys/block/sda/sda1/] and [/sys/block/nvme0n1/nvme0n1p1/]
    exist and [/sys/block/nvme0n1p/nvme0n1p1/] does not (and [calloc]
    succeeds), [get_parent_device] resolves ["sda1"] to ["sda"] (length 3)
    with its first test, and ["nvme0n1p1"] to ["nvme0n1"] (length 7) with
    its second, [p]-stripped, test; ["sda"] resolves to no parent (0 and
    the empty string) whatever the filesystem holds. *)
Theorem get_parent_device_examples (is_path_exist : string -> bool) :
  is_path_exist "/sys/block/sda/sda1/"%string = true ->
  is_path_exist "/sys/block/nvme0n1/nvme0n1p1/"%string = true ->
  is_path_exist "/sys/block/nvme0n1p/nvme0n1p1/"%string = false ->
  get_parent_device is_path_exist true "sda1"%string = (3, "sda"%string)
  /\ get_parent_device is_path_exist true "nvme0n1p1"%string = (7, "nvme0n1"%string)
  /\ (forall fs calloc_ok, get_parent_device fs calloc_ok "sda"%string = (0, EmptyString)).
Proof.
  intros H1 H2 H3. split; [|split].
  - vm_compute. rewrite H1. reflexivity.
  - vm_compute. rewrite H3, H2. reflexivity.
  - intros fs calloc_ok. vm_compute. reflexivity.
Qed.

Lemma get_parent_device_examples_witness :
  (ex_sysfs "/sys/block/sda/sda1/"%string = true
   /\ ex_sysfs "/sys/block/nvme0n1/nvme0n1p1/"%string = true
   /\ ex_sysfs "/sys/block/nvme0n1p/nvme0n1p1/"%string = false)
  /\ get_parent_device ex_sysfs true "sda1"%string = (3, "sda"%string)
  /\ get_parent_device ex_sysfs true "nvme0n1p1"%string = (7, "nvme0n1"%string)
  /\ (forall fs calloc_ok, get_parent_device fs calloc_ok "sda"%string = (0, EmptyString)).
Proof.
  assert (H1 : ex_sysfs "/sys/block/sda/sda1/"%string = true) by reflexivity.
  assert (H2 : ex_sysfs "/sys/block/nvme0n1/nvme0n1p1/"%string = true) by reflexivity.
  assert (H3 : ex_sysfs "/sys/block/nvme0n1p/nvme0n1p1/"%string = false) by reflexivity.
  split; [split; [exact H1 | split; [exact H2 | exact H3]]|].
  exact (get_parent_device_examples ex_sysfs H1 H2 H3).
Defined.

(** C4 (amended).  A format of a backing device with copy count [N]
    that completes writes exactly [max(1, N)] superblock records after the head
    writes (zeros and marker, no record among them): record [k] at
    [SB_OFFSET k], [k = 0 .. max(1, N)-1], the primary one at [SB_START].
    All of them share the block size and bucket size supplied (as 16-bit values), the
    version, the data offset and the flags; each carries the checksum of
    its own bytes; record [k >= 1] carries as device and set uuids the
    [(2k-1)]-th and [2k]-th values the uuid generator yields during the
    call, so the copies' uuids are distinct whenever the generator's
    values are.  So for [N <= 0], which [-s] accepts, the primary record
    alone is written. *)
Theorem write_sb_backing_copies ck ug alc skip dev bs bk wb disc wipe pol doff su bu dirty N s s' :
  write_sb ck ug alc skip dev bs bk wb disc wipe pol doff su true bu dirty N s = (Ok tt, s') ->
  exists pre (rec : nat -> cache_sb),
    Forall (fun w => forall r, w_payload w <> PSb r) pre
    /\ st_trace s' = st_trace s ++ pre
         ++ map (fun k => mk_write dev (SB_OFFSET (Z.of_nat k)) (PSb (rec k))) (seq 0 (Z.to_nat (Z.max 1 N)))
    /\ (forall k, (k < Z.to_nat (Z.max 1 N))%nat ->
          sb_block_size (rec k) = bs mod U16 /\ sb_bucket_size (rec k) = bk mod U16
          /\ sb_version (rec k) = sb_version (rec O)
          /\ sb_data_offset (rec k) = sb_data_offset (rec O)
          /\ sb_flags (rec k) = sb_flags (rec O)
          /\ sb_csum (rec k) = csum_set ck (rec k))
    /\ (forall k, (1 <= k < Z.to_nat (Z.max 1 N))%nat ->
          sb_uuid (rec k) = byte_array 16 (ug (st_gen s + 2 * (k - 1))%nat)
          /\ sb_set_uuid (rec k) = byte_array 16 (ug (st_gen s + 2 * (k - 1) + 1)%nat)).
Proof.
  intros H.
  apply write_sb_backing_ok in H as (_ & pre & Fpre & T).
  set (X := backing_setup (new_sb bs bk su true bu) wb dirty doff) in *.
  set (sb0 := with_csum X (csum_set ck X)) in *.
  set (g := st_gen s) in *.
  set (rec := fun k => match k with
                       | O => sb0
                       | S k' => secondary_sb ck sb0 (byte_array 16 (ug (g + 2 * k')%nat))
                                   (byte_array 16 (ug (S (g + 2 * k'))))
                       end).
  exists pre, rec. split; [|split; [|split]].
  - eapply Forall_impl; [|exact Fpre]. intros w (_ & _ & [E | [m E]]) r; rewrite E; discriminate.
  - rewrite T, secondary_writes_map. do 2 f_equal.
    replace (Z.to_nat (Z.max 1 N)) with (S (Z.to_nat (N - 1))) by lia.
    cbn [seq map app]. rewrite <- seq_shift, map_map. apply (f_equal2 cons); [reflexivity|]. apply map_ext. intros k.
    replace (1 + Z.of_nat k) with (Z.of_nat (S k)) by lia. reflexivity.
  - assert (H0 : sb_block_size sb0 = bs mod U16 /\ sb_bucket_size sb0 = bk mod U16).
    { subst sb0 X. unfold backing_setup. destruct (negb _), dirty, wb; split; reflexivity. }
    intros [|k] Hk.
    + cbn [rec]. destruct H0 as [H1 H2]. repeat split; auto. apply csum_with_csum_set.
    + cbn [rec]. destruct (secondary_sb_fields ck sb0 (byte_array 16 (ug (g + 2 * k)%nat))
                             (byte_array 16 (ug (S (g + 2 * k)))))
        as (E1 & E2 & E3 & E4 & E5 & _ & _ & E8).
      destruct H0. repeat split; congruence.
  - intros [|k] Hk; [lia|]. cbn [rec].
    destruct (secondary_sb_fields ck sb0 (byte_array 16 (ug (g + 2 * k)%nat))
                (byte_array 16 (ug (S (g + 2 * k)))))
      as (_ & _ & _ & _ & _ & E6 & E7 & _).
    rewrite E6, E7. replace (S k - 1)%nat with k by lia.
    replace (g + 2 * k + 1)%nat with (S (g + 2 * k)) by lia. split; reflexivity.
Qed.

Lemma write_sb_backing_copies_witness :
  exists pre (rec : nat -> cache_sb),
    Forall (fun w => forall r, w_payload w <> PSb r) pre
    /\ st_trace ex_formatted = st_trace ex_state ++ pre
         ++ map (fun k => mk_write "b"%string (SB_OFFSET (Z.of_nat k)) (PSb (rec k))) (seq 0 (Z.to_nat (Z.max 1 2)))
    /\ (forall k, (k < Z.to_nat 2)%nat ->
          sb_block_size (rec k) = 8 mod U16 /\ sb_bucket_size (rec k) = 1024 mod U16
          /\ sb_version (rec k) = sb_version (rec O)
          /\ sb_data_offset (rec k) = sb_data_offset (rec O)
          /\ sb_flags (rec k) = sb_flags (rec O)
          /\ sb_csum (rec k) = csum_set ex_checksum (rec k))
    /\ (forall k, (1 <= k < Z.to_nat 2)%nat ->
          sb_uuid (rec k) = byte_array 16 (ex_uuid_gen (st_gen ex_state + 2 * (k - 1))%nat)
          /\ sb_set_uuid (rec k) = byte_array 16 (ex_uuid_gen (st_gen ex_state + 2 * (k - 1) + 1)%nat)).
Proof.
  apply (write_sb_backing_copies ex_checksum ex_uuid_gen false false "b"%string 8 1024 true false false 0 40
           (repeat 1 16) (repeat 2 16) true 2 ex_state ex_formatted).
  unfold ex_formatted. vm_compute. reflexivity.
Defined.

(** C4, counterexample.  With a copy count of 0, which option [-s]
    accepts (only an upper bound is checked), the format of a backing
    device completes and writes one superblock record, not zero. *)
Lemma write_sb_zero_copies_writes_one :
  let '(o, s') := write_sb ex_checksum ex_uuid_gen false false "b"%string 8 1024 true false false 0 40
                    (repeat 1 16) true (repeat 2 16) true 0 ex_state in
  o = Ok tt /\ length (filter is_sb_write (st_trace s')) = 1%nat.
Proof. vm_compute. split; reflexivity. Qed.

(** C6.  When a format of a cache device completes, with a block size and
    a bucket size within the 16-bit fields (the bucket size nonzero) and a
    capacity within the range [getblocks] reports, the primary record read
    back holds the block size, bucket size and set uuid supplied and a
    bucket count equal to the capacity in 512-byte sectors divided by the
    bucket size. *)
Theorem write_sb_cache_read_back ck ug alc skip dev bs bk wb disc wipe pol doff su bu dirty N s s' :
  0 <= bs < U16 -> 0 < bk < U16 -> 0 <= d_size (st_devs s dev) < 512 * U64 ->
  write_sb ck ug alc skip dev bs bk wb disc wipe pol doff su false bu dirty N s = (Ok tt, s') ->
  let r := read_copy s' dev 0 in
  sb_block_size r = bs /\ sb_bucket_size r = bk /\ sb_set_uuid r = byte_array 16 su
  /\ sb_nbuckets r = d_size (st_devs s dev) / 512 / bk.
Proof.
  intros Hbs Hbk Hd H. apply write_sb_cache_ok in H as (D & pre & post & Fpre & Fpost & T).
  set (Y := cache_flags _ _ _) in *. set (sb0 := with_csum Y _) in *.
  assert (Hbk0 : sb_bucket_size sb0 = bk) by (cbn; apply Z.mod_small; unfold U16 in *; lia).
  assert (Hfb : sb_first_bucket sb0 = (23 / sb_bucket_size sb0 + 1) mod U16)
    by (rewrite Hbk0; cbn; rewrite (Z.mod_small bk) by (unfold U16 in *; lia); reflexivity).
  assert (Hr : read_copy s' dev 0 = sb_norm sb0).
  { unfold read_copy, copy_bytes, disk. rewrite T, D, !apply_trace_app.
    replace (SB_OFFSET 0) with SB_START by reflexivity.
    rewrite <- (read_back_sb (apply_trace dev pre (apply_trace dev (st_trace s) (d_data (st_devs s dev))))
                  SB_START sb0).
    f_equal. apply read_bytes_ext. intros k Hk.
    rewrite apply_trace_frame.
    - unfold apply_trace at 1. cbn [fold_left w_dev w_off w_payload payload_bytes].
      rewrite String.eqb_refl. reflexivity.
    - eapply Forall_impl; [|exact Fpost]. intros w (Ew & Lw & _). right. left.
      pose proof (journal_after_primary sb0 ltac:(lia)). rewrite <- Hfb in H.
      unfold sizeof_cache_sb, SB_JOURNAL_BUCKETS in *. lia. }
  cbv zeta. rewrite Hr. clear Hr T Fpost Fpre.
  unfold sb_norm, sb_nbuckets. cbn [sb_block_size sb_bucket_size sb_set_uuid sb_data_offset].
  subst sb0 Y. cbn [with_csum cache_flags SET_CACHE_DISCARD SET_CACHE_REPLACEMENT with_flags
                    cache_geometry new_sb with_nbuckets with_data_offset with_nr_in_set
                    with_first_bucket with_block_size with_bucket_size with_set_uuid with_uuid
                    with_magic with_version with_offset sb_zero sb_bucket_size sb_block_size
                    sb_set_uuid sb_data_offset sb_flags].
  rewrite byte_array_idem, !(Z.mod_small bs), !(Z.mod_small bk) by lia.
  unfold to_u64. rewrite (Z.mod_small (d_size (st_devs s dev) / 512))
    by (split; [apply Z.div_pos | apply Z.div_lt_upper_bound]; lia).
  assert (0 <= d_size (st_devs s dev) / 512 / bk < U64).
  { split; [apply Z.div_pos; [apply Z.div_pos|]; lia|].
    assert (0 <= d_size (st_devs s dev) / 512 < U64)
      by (split; [apply Z.div_pos | apply Z.div_lt_upper_bound]; lia).
    apply Z.le_lt_trans with (d_size (st_devs s dev) / 512); [|lia].
    apply Z.div_le_upper_bound; nia. }
  rewrite Zmod_mod, Z.mod_small by lia. repeat split; reflexivity.
Qed.

Lemma write_sb_cache_read_back_witness :
  let r := read_copy ex_cache_formatted "c"%string 0 in
  sb_block_size r = 1 /\ sb_bucket_size r = 8 /\ sb_set_uuid r = byte_array 16 (repeat 1 16)
  /\ sb_nbuckets r = d_size (st_devs ex_state "c"%string) / 512 / 8.
Proof.
  apply (write_sb_cache_read_back ex_checksum ex_uuid_gen false false "c"%string 1 8 false true false 0 16
           (repeat 1 16) (repeat 2 16) false 1 ex_state ex_cache_formatted).
  - unfold U16; lia.
  - unfold U16; lia.
  - unfold U64; cbn; lia.
  - unfold ex_cache_formatted. vm_compute. reflexivity.
Defined.

(** C9.  In an invocation that does not reset a superblock ([-r]), every
    backing-device record written (primary and secondary copies, on every
    backing device) has its state field [BDEV_STATE_DIRTY] when the
    options include [-v] with a valid uuid, whatever the other options,
    and [BDEV_STATE_NONE] (0) otherwise. *)
Theorem main_bdev_uuid_sets_dirty ck ug NMAX DOFF os s :
  Forall (fun o => is_reset_opt o = false) os ->
  let '(_, s') := main ck ug NMAX DOFF os s in
  exists new, st_trace s' = st_trace s ++ new
    /\ Forall (bdev_state_is (if existsb sets_bdev_uuid os then BDEV_STATE_DIRTY
                              else BDEV_STATE_NONE)) new.
Proof.
  intros HF. rewrite main_unfold.
  set (su := byte_array 16 (ug (st_gen s))). set (bu := byte_array 16 (ug (S (st_gen s)))).
  set (D := existsb sets_bdev_uuid os).
  assert (H : hoare (bdev_state_is (if D then BDEV_STATE_DIRTY else BDEV_STATE_NONE))
                (fun _ => True) (main_after_uuids ck ug NMAX DOFF su bu os)).
  { apply hoare_main_after_uuids with (Qc := fun c => c_sb_idx c = -1 /\ c_dirty c = D).
    - intros c E. destruct (process_opts_fields _ _ _ _ E) as (D1 & I1 & _).
      split; [rewrite I1 by exact HF; reflexivity | rewrite D1; reflexivity].
    - intros c [Hi Hd]. split; [lia|]. intros _ dev bs doff bdev N. rewrite <- Hd.
      apply hoare_write_sb.
      + intros off len r E. discriminate.
      + intros m r E. discriminate.
      + intros sb Hsb sb0. split.
        * intros r E HB. injection E as <-. exact (write_sb_record_state _ _ _ _ _ _ _ _ _ _ _ _ Hsb HB).
        * intros k u v r E HB. injection E as <-.
          destruct (secondary_sb_fields ck sb0 u v) as (_ & _ & E3 & _ & E5 & _).
          unfold SB_IS_BDEV, BDEV_STATE in *. rewrite E3 in HB. rewrite E5.
          exact (write_sb_record_state _ _ _ _ _ _ _ _ _ _ _ _ Hsb HB). }
  specialize (H (mk_state (st_devs s) (S (S (st_gen s))) (st_trace s))).
  destruct (main_after_uuids ck ug NMAX DOFF su bu os _) as [o s'].
  destruct H as (_ & Hn & _). exact Hn.
Qed.

Lemma main_bdev_uuid_sets_dirty_witness :
  let os := [OptB; OptDev "b"%string; Optv (Some (repeat 7 16))] in
  let '(_, s') := main ex_checksum ex_uuid_gen 8 (fun n => 16 + n * 8) os ex_state in
  exists new, st_trace s' = st_trace ex_state ++ new
    /\ Forall (bdev_state_is (if existsb sets_bdev_uuid os then BDEV_STATE_DIRTY
                              else BDEV_STATE_NONE)) new.
Proof.
  apply (main_bdev_uuid_sets_dirty ex_checksum ex_uuid_gen 8 (fun n => 16 + n * 8)
           [OptB; OptDev "b"%string; Optv (Some (repeat 7 16))] ex_state).
  repeat constructor.
Defined.



(* ================================================================== *)
(** * Further properties of the code *)

(* hatoi_validate *)
Lemma land_pred_pow2 h :
  0 < h -> Z.land h (h - 1) = 0 -> h = 2 ^ Z.log2 h.
Proof.
  intros Hh E. set (k := Z.log2 h).
  pose proof (Z.log2_spec h Hh) as [L U]. fold k in L, U.
  assert (Hk : 0 <= k) by apply Z.log2_nonneg.
  rewrite Z.pow_succ_r in U by exact Hk.
  destruct (Z.eq_dec h (2 ^ k)) as [|Hne]; [assumption|exfalso].
  assert (B : Z.testbit (h - 1) k = true /\ Z.testbit h k = true).
  { split; apply Z.testbit_true; try lia.
    - rewrite <- (Z.div_unique_pos (h - 1) (2 ^ k) 1 (h - 1 - 2 ^ k)) by lia. reflexivity.
    - rewrite <- (Z.div_unique_pos h (2 ^ k) 1 (h - 2 ^ k)) by lia. reflexivity. }
  assert (T : Z.testbit (Z.land h (h - 1)) k = true) by (rewrite Z.land_spec; destruct B as [-> ->]; reflexivity).
  rewrite E, Z.testbit_0_l in T. discriminate.
Qed.

Lemma hatoi_range s : 0 <= hatoi s < U64.
Proof. unfold hatoi. destruct (strtoll s). apply Z.mod_pos_bound. reflexivity. Qed.

(** X1.  A size accepted by [hatoi_validate] is a power of two [2^j]
    with [0 <= j <= 15] (so between 1 and [USHRT_MAX]), and it is the value
    [hatoi] reads, in bytes, divided by 512. *)
Theorem hatoi_validate_result s v :
  hatoi_validate s = Some v ->
  1 <= v <= USHRT_MAX /\ hatoi s = 512 * v /\ exists j, 0 <= j <= 15 /\ v = 2 ^ j.
Proof.
  unfold hatoi_validate. pose proof (hatoi_range s) as R. set (h := hatoi s) in *.
  destruct (negb _) eqn:E1; [discriminate|].
  destruct (h / 512 >? USHRT_MAX) eqn:E2; [discriminate|].
  destruct (h / 512 =? 0) eqn:E3; [discriminate|].
  intros H. injection H as <-.
  apply negb_false_iff, Z.eqb_eq in E1. rewrite Z.gtb_ltb, Z.ltb_ge in E2. apply Z.eqb_neq in E3.
  unfold USHRT_MAX in *.
  assert (Hpos : 0 < h) by (destruct (Z.eq_dec h 0) as [e|]; [rewrite e in E3; contradiction | lia]).
  unfold to_u64 in E1. rewrite Z.mod_small in E1 by lia.
  pose proof (land_pred_pow2 h Hpos E1) as P. set (k := Z.log2 h) in *.
  assert (Hk9 : 9 <= k).
  { destruct (Z.le_gt_cases 9 k) as [|Hlt]; [assumption|exfalso].
    apply E3. rewrite P. apply Z.div_small. split; [lia|].
    apply Z.lt_le_trans with (2 ^ 9); [apply Z.pow_lt_mono_r; lia | reflexivity]. }
  assert (Hd : h / 512 = 2 ^ (k - 9)).
  { rewrite P. replace k with ((k - 9) + 9) at 1 by lia. rewrite Z.pow_add_r by lia.
    apply Z.div_mul. discriminate. }
  rewrite Hd in *.
  assert (Hk : k - 9 <= 15).
  { destruct (Z.le_gt_cases (k - 9) 15) as [|Hlt]; [assumption|exfalso].
    assert (2 ^ 16 <= 2 ^ (k - 9)) by (apply Z.pow_le_mono_r; lia). lia. }
  split; [lia|]. split.
  - rewrite P at 1. replace k with ((k - 9) + 9) at 1 by lia. rewrite Z.pow_add_r by lia. lia.
  - exists (k - 9). split; [lia | reflexivity].
Qed.

Lemma hatoi_validate_result_witness :
  hatoi_validate (list_ascii_of_string "8k") = Some 16
  /\ (1 <= 16 <= USHRT_MAX /\ hatoi (list_ascii_of_string "8k") = 512 * 16
      /\ exists j, 0 <= j <= 15 /\ 16 = 2 ^ j).
Proof.
  assert (H : hatoi_validate (list_ascii_of_string "8k") = Some 16) by (vm_compute; reflexivity).
  split; [exact H | exact (hatoi_validate_result _ _ H)].
Defined.


(* hatoi suffixes *)
Lemma digits_acc_app acc ds c rest :
  Forall (fun c => isdigit c = true) ds -> isdigit c = false ->
  digits_acc acc (ds ++ c :: rest) = (fst (digits_acc acc ds), c :: rest).
Proof.
  revert acc; induction ds as [|d ds IH]; intros acc F Hc; simpl.
  - rewrite Hc. reflexivity.
  - inversion F; subst. rewrite H1. apply IH; assumption.
Qed.

Lemma digits_acc_nil acc ds :
  Forall (fun c => isdigit c = true) ds -> digits_acc acc ds = (fst (digits_acc acc ds), []).
Proof.
  revert acc; induction ds as [|d ds IH]; intros acc F; simpl; [reflexivity|].
  inversion F; subst. rewrite H1. apply IH; assumption.
Qed.

Lemma digit_val_range c : isdigit c = true -> 0 <= digit_val c <= 9.
Proof. unfold isdigit, digit_val. intros H. apply andb_prop in H as [H1 H2].
  apply Nat.leb_le in H1, H2. lia. Qed.

Lemma digits_acc_nonneg acc ds :
  0 <= acc -> Forall (fun c => isdigit c = true) ds -> 0 <= fst (digits_acc acc ds).
Proof.
  revert acc; induction ds as [|d ds IH]; intros acc Ha F; cbn [digits_acc fst]; [exact Ha|].
  inversion F as [|? ? Hd Hds]; subst. rewrite Hd. apply IH; [|exact Hds].
  pose proof (digit_val_range d Hd). unfold digit_val in *. lia.
Qed.

Lemma to_llong_small x : - 2 ^ 63 <= x < 2 ^ 63 -> to_llong x = x.
Proof. intros H. unfold to_llong, U64. rewrite Z.mod_small by lia. lia. Qed.

Lemma iter_1024 (e : nat) n :
  0 <= n -> n * 1024 ^ Z.of_nat e <= LLONG_MAX ->
  Nat.iter e (fun i => to_llong (i * 1024)) n = n * 1024 ^ Z.of_nat e.
Proof.
  unfold LLONG_MAX. induction e as [|e IH]; intros Hn Hb.
  - simpl. lia.
  - rewrite Nat2Z.inj_succ, Z.pow_succ_r in Hb by lia.
    assert (P : 0 <= n * 1024 ^ Z.of_nat e) by (apply Z.mul_nonneg_nonneg; [lia | apply Z.pow_nonneg; lia]).
    rewrite Nat.iter_succ, IH by lia.
    rewrite to_llong_small by lia.
    rewrite Nat2Z.inj_succ, Z.pow_succ_r by lia. ring.
Qed.

Lemma isdigit_cases d : isdigit d = true ->
  In d ["0"; "1"; "2"; "3"; "4"; "5"; "6"; "7"; "8"; "9"]%char.
Proof. intros H. destruct d as [[] [] [] [] [] [] [] []]; try discriminate; simpl; tauto. Qed.

Lemma strtoll_digit t d t' :
  t = d :: t' -> isdigit d = true ->
  strtoll t = (Z.min LLONG_MAX (fst (digits_acc 0 t)), snd (digits_acc 0 t)).
Proof.
  intros -> H. apply isdigit_cases in H.
  simpl in H; repeat destruct H as [H|H]; try contradiction; subst d;
    unfold strtoll; cbn [skip_spaces isspace];
    destruct (digits_acc 0 _); reflexivity.
Qed.

(** X2.  [hatoi] reads a decimal number followed by one of the
    suffixes [k]/[K], [m]/[M], [g]/[G], [t]/[T] as the number times
    [1024], [1024^2], [1024^3], [1024^4], whatever follows the suffix, when
    the product does not exceed [LLONG_MAX]. *)
Theorem hatoi_suffix ds c e rest :
  ds <> [] -> Forall (fun c => isdigit c = true) ds ->
  In (c, e) [("k", 1%nat); ("K", 1%nat); ("m", 2%nat); ("M", 2%nat);
             ("g", 3%nat); ("G", 3%nat); ("t", 4%nat); ("T", 4%nat)]%char ->
  fst (digits_acc 0 ds) * 1024 ^ Z.of_nat e <= LLONG_MAX ->
  hatoi (ds ++ c :: rest) = fst (digits_acc 0 ds) * 1024 ^ Z.of_nat e.
Proof.
  intros Hne F Hin Hb.
  assert (Hc : isdigit c = false) by
    (simpl in Hin; repeat destruct Hin as [Hin|Hin]; try injection Hin as <- <-; easy).
  set (n := fst (digits_acc 0 ds)) in *.
  assert (Hn : 0 <= n) by (apply digits_acc_nonneg; [lia | exact F]).
  assert (Hn' : n <= LLONG_MAX) by (pose proof (Z.pow_pos_nonneg 1024 (Z.of_nat e)); unfold LLONG_MAX in *; nia).
  destruct ds as [|d ds']; [contradiction|]. pose proof F as F'. inversion F' as [|? ? Hd _]; subst.
  unfold hatoi. rewrite (strtoll_digit ((d :: ds') ++ c :: rest) d (ds' ++ c :: rest) eq_refl Hd).
  rewrite (digits_acc_app 0 _ c rest F Hc). fold n. cbn [fst snd]. rewrite Z.min_r by exact Hn'.
  pose proof (Z.pow_pos_nonneg 1024 (Z.of_nat e) ltac:(lia) ltac:(lia)) as Pe.
  assert (Pn : 0 <= n * 1024 ^ Z.of_nat e) by (apply Z.mul_nonneg_nonneg; lia).
  simpl in Hin; repeat destruct Hin as [Hin|Hin]; try contradiction; injection Hin as <- <-;
   rewrite iter_1024 by assumption; unfold to_u64, U64, LLONG_MAX in *;
   apply Z.mod_small; lia.
Qed.

Lemma hatoi_suffix_witness :
  hatoi (["1"; "6"] ++ "k" :: ["B"])%char = fst (digits_acc 0 ["1"; "6"]%char) * 1024 ^ Z.of_nat 1.
Proof.
  apply hatoi_suffix.
  - discriminate.
  - repeat constructor.
  - left. reflexivity.
  - apply Z.leb_le. vm_compute. reflexivity.
Defined.


(** X3.  [hatoi] reads a decimal number with no suffix (at the end of
    the string, or followed by a non-digit other than the suffix letters)
    as the number itself, when it does not exceed [LLONG_MAX]. *)
Theorem hatoi_plain ds rest :
  ds <> [] -> Forall (fun c => isdigit c = true) ds ->
  fst (digits_acc 0 ds) <= LLONG_MAX ->
  (rest = [] \/ exists c rest', rest = c :: rest' /\ isdigit c = false
     /\ ~ In c ["k"; "K"; "m"; "M"; "g"; "G"; "t"; "T"]%char) ->
  hatoi (ds ++ rest) = fst (digits_acc 0 ds).
Proof.
  intros Hne F Hb Hr.
  set (n := fst (digits_acc 0 ds)) in *.
  assert (Hn : 0 <= n) by (apply digits_acc_nonneg; [lia | exact F]).
  destruct ds as [|d ds']; [contradiction|]. pose proof F as F'. inversion F' as [|? ? Hd _]; subst.
  unfold hatoi. rewrite (strtoll_digit ((d :: ds') ++ rest) d (ds' ++ rest) eq_refl Hd).
  destruct Hr as [-> | (c & rest' & -> & Hc & Hnot)].
  - rewrite app_nil_r, digits_acc_nil by exact F. fold n. cbn [fst snd].
    rewrite Z.min_r by exact Hb. unfold to_u64, U64, LLONG_MAX in *. apply Z.mod_small. lia.
  - rewrite (digits_acc_app 0 _ c rest' F Hc). fold n. cbn [fst snd]. rewrite Z.min_r by exact Hb.
    assert (E : match c :: rest' with
                | "t"%char :: _ | "T"%char :: _ => 0 | "g"%char :: _ | "G"%char :: _ => 0
                | "m"%char :: _ | "M"%char :: _ => 0 | "k"%char :: _ | "K"%char :: _ => 0
                | _ => 1 end = 1).
    { destruct c as [[] [] [] [] [] [] [] []]; try reflexivity; exfalso; apply Hnot; simpl; tauto. }
    destruct c as [[] [] [] [] [] [] [] []]; try discriminate E;
      unfold to_u64, U64, LLONG_MAX in *; apply Z.mod_small; lia.
Qed.

Lemma hatoi_plain_witness :
  hatoi (["5"; "1"; "2"] ++ [])%char = fst (digits_acc 0 ["5"; "1"; "2"]%char).
Proof.
  apply hatoi_plain.
  - discriminate.
  - repeat constructor.
  - apply Z.leb_le. vm_compute. reflexivity.
  - left. reflexivity.
Defined.


Lemma skip_spaces_split s :
  exists pre, s = pre ++ skip_spaces s /\ Forall (fun c => isspace c = true) pre
  /\ forall c t, skip_spaces s = c :: t -> isspace c = false.
Proof.
  induction s as [|c s IH]; simpl.
  - exists []. split; [reflexivity|]. split; [constructor | discriminate].
  - destruct (isspace c) eqn:E.
    + destruct IH as (pre & H1 & H2 & H3). exists (c :: pre). simpl. rewrite <- H1.
      split; [reflexivity|]. split; [constructor; assumption | exact H3].
    + exists []. split; [reflexivity|]. split; [constructor|]. intros c' t H. injection H as <- _. exact E.
Qed.

(** X4.  [strim] removes exactly the leading and trailing white
    space: the string is some white space, the result, then some white
    space, and the result neither starts nor ends with white space. *)
Theorem strim_trims s :
  exists pre suf, s = pre ++ strim s ++ suf
  /\ Forall (fun c => isspace c = true) pre /\ Forall (fun c => isspace c = true) suf
  /\ (forall c t, strim s = c :: t -> isspace c = false)
  /\ (forall t c, strim s = t ++ [c] -> isspace c = false).
Proof.
  destruct (skip_spaces_split s) as (pre & E1 & F1 & H1).
  set (t := skip_spaces s) in *.
  destruct (skip_spaces_split (rev t)) as (pre2 & E2 & F2 & H2).
  set (u := skip_spaces (rev t)) in *.
  assert (Et : t = strim s ++ rev pre2).
  { unfold strim. fold t u. rewrite <- rev_app_distr, <- E2, rev_involutive. reflexivity. }
  exists pre, (rev pre2). split; [|split; [exact F1|split; [|split]]].
  - rewrite E1 at 1. rewrite Et. reflexivity.
  - apply Forall_rev. exact F2.
  - intros c x Hs. apply (H1 c (x ++ rev pre2)). rewrite Et, Hs. reflexivity.
  - intros x c Hs. apply (H2 c (rev x)). unfold strim in Hs. fold t u in Hs.
    rewrite <- (rev_involutive u), Hs, rev_app_distr. reflexivity.
Qed.

Lemma read_string_list_go s l i :
  0 <= i ->
  let r := (fix go (l : list string) (i : Z) : Z :=
              match l with
              | [] => - EINVAL
              | x :: l' => if String.eqb x s then i else go l' (i + 1)
              end) l i in
  (r = - EINVAL /\ ~ In s l)
  \/ (i <= r < i + Z.of_nat (length l) /\ nth (Z.to_nat (r - i)) l ""%string = s
      /\ forall k, (k < Z.to_nat (r - i))%nat -> nth k l ""%string <> s).
Proof.
  revert i; induction l as [|x l IH]; intros i Hi r; subst r.
  - left. split; [reflexivity | intros []].
  - cbn beta iota. destruct (String.eqb_spec x s) as [<-|Hne].
    + right. replace (i - i) with 0 by lia. simpl. split; [lia|]. split; [reflexivity|]. intros k Hk. lia.
    + destruct (IH (i + 1) ltac:(lia)) as [[E N] | (R1 & R2 & R3)].
      * left. split; [exact E|]. intros [H|H]; [congruence | contradiction].
      * right. cbn [length]. split; [lia|].
        replace (Z.to_nat (_ - i)) with (S (Z.to_nat (((fix go (l : list string) (i : Z) : Z :=
              match l with
              | [] => - EINVAL
              | x :: l' => if String.eqb x s then i else go l' (i + 1)
              end) l (i + 1)) - (i + 1)))) by lia.
        split; [exact R2|]. intros [|k] Hk; [exact Hne|]. apply R3. lia.
Qed.

(** X5.  [read_string_list] returns [-ENOMEM] when its [strdup] fails;
    otherwise it returns the index of the first entry of the list equal
    to the trimmed argument, and [-EINVAL] when no entry is equal to it. *)
Theorem read_string_list_index strdup_ok buf l :
  let s := string_of_list_ascii (strim buf) in
  let r := read_string_list_full strdup_ok buf l in
  (strdup_ok = false /\ r = - ENOMEM)
  \/ (strdup_ok = true
      /\ ((r = - EINVAL /\ ~ In s l)
          \/ (0 <= r < Z.of_nat (length l) /\ nth (Z.to_nat r) l ""%string = s
              /\ forall k, (k < Z.to_nat r)%nat -> nth k l ""%string <> s))).
Proof.
  intros s r. unfold r, read_string_list_full.
  destruct strdup_ok; [right; split; [reflexivity|] | left; split; reflexivity].
  cbn [negb]. unfold read_string_list. fold s.
  destruct (read_string_list_go s l 0 ltac:(lia)) as [H | (H1 & H2 & H3)]; [left; exact H | right].
  rewrite Z.sub_0_r in H2, H3. split; [lia|]. split; assumption.
Qed.

Lemma scan_tail_sound d len i fuel e de :
  len = Z.of_nat (length d) -> i < len ->
  (forall k, i < k < len -> isdigit (nth (Z.to_nat k) d "000"%char) = true) ->
  (de = 0 \/ (0 < de < len /\ forall k, de <= k < len -> isdigit (nth (Z.to_nat k) d "000"%char) = true)) ->
  (e = 0 \/ (0 < e < len - 1 /\ nth (Z.to_nat e) d "000"%char = "p"%char
             /\ forall k, e < k < len -> isdigit (nth (Z.to_nat k) d "000"%char) = true)) ->
  let '(e', de') := scan_tail d len i fuel e de in
  (de' = 0 \/ (0 < de' < len /\ forall k, de' <= k < len -> isdigit (nth (Z.to_nat k) d "000"%char) = true))
  /\ (e' = 0 \/ (0 < e' < len - 1 /\ nth (Z.to_nat e') d "000"%char = "p"%char
             /\ forall k, e' < k < len -> isdigit (nth (Z.to_nat k) d "000"%char) = true)).
Proof.
  revert i e de; induction fuel as [|f IH]; intros i e de Hl Hi Hd Hde He; simpl; [auto|].
  destruct (i <? 0) eqn:Ei; [auto|]. apply Z.ltb_ge in Ei.
  destruct (isdigit (nth (Z.to_nat i) d "000"%char)) eqn:Ec; cbn [negb].
  - apply IH; auto; [lia | |].
    + intros k Hk. destruct (Z.eq_dec k i) as [->|]; [exact Ec | apply Hd; lia].
    + destruct (Z.eq_dec i 0) as [->|]; [left; reflexivity|right].
      split; [lia|]. intros k Hk. destruct (Z.eq_dec k i) as [->|]; [exact Ec | apply Hd; lia].
  - split; [exact Hde|].
    destruct (Ascii.eqb _ "p"%char && negb (i =? len - 1)) eqn:Ep; [|exact He].
    apply andb_prop in Ep as [Ep1 Ep2]. apply Ascii.eqb_eq in Ep1. apply negb_true_iff, Z.eqb_neq in Ep2.
    destruct (Z.eq_dec i 0) as [->|]; [left; reflexivity|right].
    split; [lia|]. split; [exact Ep1|]. exact Hd.
Qed.

Lemma Forall_skipn_nth {A} (P : A -> Prop) (l : list A) n x :
  (forall k, (n <= k < length l)%nat -> P (nth k l x)) -> Forall P (skipn n l).
Proof.
  intros H. apply Forall_forall. intros y Hy.
  apply (In_nth _ _ x) in Hy as (j & Hj & <-). rewrite length_skipn in Hj.
  rewrite nth_skipn. apply H. lia.
Qed.

Lemma skipn_nth_cons {A} (l : list A) n x :
  (n < length l)%nat -> skipn n l = nth n l x :: skipn (S n) l.
Proof.
  revert n; induction l as [|a l IH]; intros [|n] Hn; simpl in *; try lia; auto.
  apply IH. lia.
Qed.

(** X15.  For a device name of at most 43 characters (so that
    [/sys/block/<prefix>/<dev>/] fits in the 100-byte [buf] for every
    prefix tried), [get_parent_device] either fails (0 and an empty name)
    or returns a proper prefix length [n] of the device name with the
    prefix as parent name, such that [/sys/block/<parent>/<dev>/] exists
    and the rest of the name is a partition number, possibly after a
    [p]. *)
Theorem get_parent_device_result is_path_exist calloc_ok dev :
  (String.length dev <= 43)%nat ->
  let d := list_ascii_of_string dev in
  let '(n, base) := get_parent_device is_path_exist calloc_ok dev in
  (n = 0 /\ base = EmptyString)
  \/ (0 < n < Z.of_nat (length d)
      /\ base = string_of_list_ascii (firstn (Z.to_nat n) d)
      /\ is_path_exist (sys_path (firstn (Z.to_nat n) d) d) = true
      /\ let t := skipn (Z.to_nat n) d in
         (t <> [] /\ Forall (fun c => isdigit c = true) t)
         \/ exists t', t = "p"%char :: t' /\ t' <> [] /\ Forall (fun c => isdigit c = true) t').
Proof.
  intros _ d. unfold get_parent_device. fold d. set (len := Z.of_nat (length d)).
  destruct (len <? 2) eqn:El; [left; auto|]. apply Z.ltb_ge in El.
  pose proof (scan_tail_sound d len (len - 1) (length d) 0 0 eq_refl ltac:(lia)
                ltac:(intros; lia) (or_introl eq_refl) (or_introl eq_refl)) as S.
  destruct (scan_tail d len (len - 1) (length d) 0 0) as [e de].
  destruct S as [Hde He].
  destruct (negb (de =? 0)) eqn:Ed; [|left; auto]. apply negb_true_iff, Z.eqb_neq in Ed.
  destruct calloc_ok; [|left; auto]. unfold firstn_z.
  destruct Hde as [|(Hde1 & Hde2)]; [contradiction|].
  destruct (is_path_exist (sys_path (firstn (Z.to_nat de) d) d)) eqn:P1.
  - right. split; [lia|]. split; [reflexivity|]. split; [exact P1|]. left. split.
    + intros E. pose proof (f_equal (@length ascii) E) as L. rewrite length_skipn in L. simpl in L. lia.
    + apply Forall_skipn_nth with (x := "000"%char). intros k Hk.
      replace k with (Z.to_nat (Z.of_nat k)) by lia. apply Hde2. lia.
  - destruct (e =? 0) eqn:Ee; [left; auto|]. apply Z.eqb_neq in Ee.
    destruct He as [|(He1 & He2 & He3)]; [contradiction|].
    destruct (is_path_exist (sys_path (firstn (Z.to_nat e) d) d)) eqn:P2; [|left; auto].
    right. split; [lia|]. split; [reflexivity|]. split; [exact P2|]. right.
    exists (skipn (S (Z.to_nat e)) d). split; [|split].
    + rewrite (skipn_nth_cons d (Z.to_nat e) "000"%char) by lia. rewrite He2. reflexivity.
    + intros E. pose proof (f_equal (@length ascii) E) as L. rewrite length_skipn in L. simpl in L. lia.
    + apply Forall_skipn_nth with (x := "000"%char). intros k Hk.
      replace k with (Z.to_nat (Z.of_nat k)) by lia. apply He3. lia.
Qed.

Lemma get_parent_device_result_witness :
  (String.length "nvme0n1p1" <= 43)%nat
  /\ (let d := list_ascii_of_string "nvme0n1p1" in
      let '(n, base) := get_parent_device ex_sysfs true "nvme0n1p1" in
      (n = 0 /\ base = EmptyString)
      \/ (0 < n < Z.of_nat (length d)
          /\ base = string_of_list_ascii (firstn (Z.to_nat n) d)
          /\ ex_sysfs (sys_path (firstn (Z.to_nat n) d) d) = true
          /\ let t := skipn (Z.to_nat n) d in
             (t <> [] /\ Forall (fun c => isdigit c = true) t)
             \/ exists t', t = "p"%char :: t' /\ t' <> [] /\ Forall (fun c => isdigit c = true) t')).
Proof.
  split; [cbn; lia|].
  apply (get_parent_device_result ex_sysfs true "nvme0n1p1"). cbn. lia.
Defined.

(** X10.  [write_sb] exits before writing anything when the device is
    smaller than [SB_START] plus a record, when it already holds a bcache
    record and [--wipe-bcache] is not given, when the blkid probe fails or
    finds a signature, when a cache device has a bucket size of 0 (the
    division by it traps), and when a cache device has fewer than 128
    buckets. *)
Theorem write_sb_refuses ck ug alc skip dev bs bk wb disc wipe pol doff su bdev bu dirty N s :
  d_size (st_devs s dev) < SB_START + sizeof_cache_sb
  \/ (is_bcache_magic (read_copy s dev 0) = true /\ wipe = false)
  \/ d_probe (st_devs s dev) = None \/ d_probe (st_devs s dev) = Some 0
  \/ (bdev = false /\ bk mod U16 = 0)
  \/ (bdev = false /\ bk mod U16 <> 0
      /\ to_u64 (d_size (st_devs s dev) / 512) / (bk mod U16) < 128) ->
  write_sb ck ug alc skip dev bs bk wb disc wipe pol doff su bdev bu dirty N s = (Exit, s).
Proof.
  intros H. unfold write_sb, bind at 1, open_excl.
  destruct (d_open_ok (st_devs s dev)); [|reflexivity].
  unfold bind at 1, pread_sb.
  destruct ((0 <=? SB_START) && (SB_START + sizeof_cache_sb <=? d_size (st_devs s dev))) eqn:Es;
    [|reflexivity].
  apply andb_prop in Es as [_ Es]. apply Z.leb_le in Es.
  unfold bind at 1, when.
  change (read_bytes (disk s dev) SB_START (Z.to_nat sizeof_cache_sb)) with (copy_bytes s dev 0).
  fold (read_copy s dev 0).
  destruct (is_bcache_magic (read_copy s dev 0) && negb wipe) eqn:Em; [reflexivity|].
  unfold ret, bind at 1, blkid_check.
  destruct (d_probe (st_devs s dev)) as [r|] eqn:Ep; [|reflexivity].
  destruct (r =? 0) eqn:Er; [reflexivity|]. apply Z.eqb_neq in Er.
  destruct H as [H | [[H1 H2] | [H | [H | H]]]];
    [lia | rewrite H1, H2 in Em; discriminate | discriminate | congruence |].
  rewrite SB_IS_BDEV_new_sb. unfold bind at 1.
  destruct H as [[-> Hb] | (-> & Hb & Hn)].
  - unfold bind at 1, getblocks. cbn [sb_bucket_size new_sb with_block_size with_bucket_size sb_zero
      with_set_uuid with_uuid with_magic with_version with_offset].
    rewrite Hb. reflexivity.
  - unfold bind at 1, getblocks. cbn [sb_bucket_size new_sb with_block_size with_bucket_size sb_zero
      with_set_uuid with_uuid with_magic with_version with_offset].
    apply Z.eqb_neq in Hb. rewrite Hb.
    cbn [cache_geometry sb_nbuckets with_nbuckets with_data_offset with_first_bucket with_nr_in_set sb_data_offset
         sb_bucket_size new_sb with_block_size with_bucket_size sb_zero
         with_set_uuid with_uuid with_magic with_version with_offset].
    assert (R : 0 <= to_u64 (d_size (st_devs s dev) / 512) < U64) by (apply Z.mod_pos_bound; reflexivity).
    assert (Rb : 0 < bk mod U16) by (pose proof (Z.mod_pos_bound bk U16 ltac:(reflexivity)); lia).
    rewrite (Z.mod_small (_ / _)) by (split; [apply Z.div_pos; lia | apply Z.le_lt_trans with (to_u64 (d_size (st_devs s dev) / 512)); [apply Z.div_le_upper_bound; nia | lia]]).
    replace (_ <? Z.shiftl 1 7) with true by (symmetry; apply Z.ltb_lt; exact Hn).
    reflexivity.
Qed.

Lemma write_sb_refuses_witness :
  write_sb ex_checksum ex_uuid_gen false false "c"%string 1 0 false false false 0 16
           (repeat 1 16) false (repeat 2 16) false 1 ex_state = (Exit, ex_state).
Proof.
  apply write_sb_refuses. right; right; right; right; left. split; reflexivity.
Defined.


Lemma max_blocksize_run bs devs s :
  let '(o, s') := max_blocksize bs devs s in s' = s /\ forall r, o = Ok r -> bs <= r.
Proof.
  revert bs; induction devs as [|d devs IH]; intros bs; simpl.
  - split; [reflexivity|]. intros r E. injection E as <-. lia.
  - unfold bind, get_blocksize.
    destruct (negb (d_stat_ok (st_devs s d))); [split; [reflexivity | discriminate]|].
    destruct (d_is_blk (st_devs s d)).
    + specialize (IH (Z.max bs (d_logical_block_size (st_devs s d) / 512))).
      destruct (max_blocksize _ devs s) as [o s']. destruct IH as [-> IH].
      split; [reflexivity|]. intros r E. specialize (IH r E). lia.
    + specialize (IH (Z.max bs (d_st_blksize (st_devs s d) / 512))).
      destruct (max_blocksize _ devs s) as [o s']. destruct IH as [-> IH].
      split; [reflexivity|]. intros r E. specialize (IH r E). lia.
Qed.

(** How [main] reaches its formats or its reset. *)
Lemma main_after_uuids_steps ck ug NMAX DOFF su bu os s :
  main_after_uuids ck ug NMAX DOFF su bu os s = (Exit, s)
  \/ exists c,
       process_opts NMAX (main_defaults su bu) os = Some c
       /\ (c_cache_devices c <> [] \/ c_backing_devices c <> [])
       /\ (exists bs, (if c_block_size c =? 0 then
                          b <- max_blocksize (c_block_size c) (c_cache_devices c) ;;
                          max_blocksize b (c_backing_devices c)
                        else ret (c_block_size c)) s = (Ok bs, s)
                      /\ bs <= c_bucket_size c)
       /\ (c_data_offset c = to_u64 (-1) \/ to_u64 (DOFF (c_sb_num c)) <= c_data_offset c)
       /\ (0 <= c_sb_idx c ->
           main_after_uuids ck ug NMAX DOFF su bu os s
           = match c_backing_devices c with
             | [dev] => reset_backing_sb ck dev (c_wipe_bcache c) (c_sb_idx c)
                          (c_set_uuid c) (c_bdev_uuid c) s
             | _ => (Exit, s)
             end).
Proof.
  remember (main_after_uuids ck ug NMAX DOFF su bu os s) as R eqn:E.
  unfold main_after_uuids, lift_opt, bind at 1 in E.
  destruct (process_opts NMAX (main_defaults su bu) os) as [c|] eqn:Ec; [|left; exact E].
  unfold ret at 1, bind at 1, when at 1 in E. cbv beta iota in E.
  destruct (Nat.eqb (length (c_cache_devices c)) 0 && Nat.eqb (length (c_backing_devices c)) 0) eqn:En;
    [left; exact E|].
  assert (Hn : c_cache_devices c <> [] \/ c_backing_devices c <> []).
  { destruct (c_cache_devices c); [|left; discriminate].
    destruct (c_backing_devices c); [discriminate | right; discriminate]. }
  unfold ret at 1, bind at 1 in E. cbv beta iota in E.
  match type of E with context [(if c_block_size c =? 0 then ?m else ?m') s] =>
    set (BS := (if c_block_size c =? 0 then m else m') s) in E;
    assert (EBS : (if c_block_size c =? 0 then m else m') s = BS) by reflexivity end.
  assert (B : let '(o, s') := BS in s' = s /\ forall r, o = Ok r -> c_block_size c <= r).
  { subst BS. destruct (c_block_size c =? 0) eqn:Eb.
    - apply Z.eqb_eq in Eb. unfold bind.
      pose proof (max_blocksize_run (c_block_size c) (c_cache_devices c) s) as R1.
      destruct (max_blocksize _ (c_cache_devices c) s) as [[b1|] s1]; destruct R1 as [-> R1];
        [|split; [reflexivity | discriminate]].
      pose proof (max_blocksize_run b1 (c_backing_devices c) s) as R2.
      destruct (max_blocksize b1 _ s) as [o s2]. destruct R2 as [-> R2].
      split; [reflexivity|]. intros r E'. specialize (R1 b1 eq_refl). specialize (R2 r E'). lia.
    - unfold ret. split; [reflexivity|]. intros r E'. injection E' as <-. lia. }
  clearbody BS. destruct BS as [[bs|] s1]; destruct B as [-> B]; [|left; exact E].
  specialize (B bs eq_refl).
  unfold bind at 1, when at 1 in E. cbv beta iota in E.
  destruct (c_bucket_size c <? bs) eqn:Ebk; [left; exact E|]. apply Z.ltb_ge in Ebk.
  unfold ret at 1, bind at 1 in E. cbv beta iota in E.
  destruct (c_data_offset c =? to_u64 (-1)) eqn:Ed.
  - cbv beta iota in E. right. exists c. split; [reflexivity|]. split; [exact Hn|].
    split; [exists bs; split; [exact EBS | lia]|].
    split; [left; apply Z.eqb_eq; exact Ed|]. intros Hi.
    assert (Ei : (c_sb_idx c >=? 0) = true) by (apply Z.geb_le; lia).
    subst R. unfold ret. cbv beta iota. rewrite Ei.
    destruct (c_backing_devices c) as [|d [|d' l]]; reflexivity.
  - destruct (c_data_offset c <? to_u64 (DOFF (c_sb_num c))) eqn:Ed2; [left; exact E|].
    apply Z.ltb_ge in Ed2. unfold ret in E. cbv beta iota in E.
    right. exists c. split; [reflexivity|]. split; [exact Hn|].
    split; [exists bs; split; [exact EBS | lia]|].
    split; [right; exact Ed2|]. intros Hi.
    assert (Ei : (c_sb_idx c >=? 0) = true) by (apply Z.geb_le; lia).
    subst R. unfold ret. cbv beta iota. rewrite Ei.
    destruct (c_backing_devices c) as [|d [|d' l]]; reflexivity.
Qed.

Lemma max_blocksize_devs b devs s1 s2 :
  st_devs s1 = st_devs s2 ->
  exists o, max_blocksize b devs s1 = (o, s1) /\ max_blocksize b devs s2 = (o, s2).
Proof.
  intros D. revert b; induction devs as [|d devs IH]; intros b; simpl.
  - eexists; split; reflexivity.
  - unfold bind, get_blocksize. rewrite D.
    destruct (negb (d_stat_ok (st_devs s2 d))); [eexists; split; reflexivity|].
    destruct (d_is_blk (st_devs s2 d)); apply IH.
Qed.

Lemma main_block_size_devs c s1 s2 :
  st_devs s1 = st_devs s2 ->
  exists o,
    (if c_block_size c =? 0 then
       b <- max_blocksize (c_block_size c) (c_cache_devices c) ;;
       max_blocksize b (c_backing_devices c)
     else ret (c_block_size c)) s1 = (o, s1)
    /\ (if c_block_size c =? 0 then
          b <- max_blocksize (c_block_size c) (c_cache_devices c) ;;
          max_blocksize b (c_backing_devices c)
        else ret (c_block_size c)) s2 = (o, s2).
Proof.
  intros D. destruct (c_block_size c =? 0); [|eexists; split; reflexivity].
  unfold bind.
  destruct (max_blocksize_devs (c_block_size c) (c_cache_devices c) s1 s2 D) as (o & -> & ->).
  destruct o as [b|]; [apply max_blocksize_devs, D | eexists; split; reflexivity].
Qed.

(** X13.  [main] exits without writing when option processing fails,
    when no device is given, when the block size [main] uses (the [-w]
    value, or else the largest [get_blocksize] of the devices) cannot be
    obtained or exceeds the bucket size, when an explicit data offset is
    below [BDEV_DATA_OFFSET] of the copy count, and when a reset ([-r]) is
    asked for with a number of backing devices other than one. *)
Theorem main_refuses ck ug NMAX DOFF os s :
  let su := byte_array 16 (ug (st_gen s)) in
  let bu := byte_array 16 (ug (S (st_gen s))) in
  process_opts NMAX (main_defaults su bu) os = None
  \/ (exists c, process_opts NMAX (main_defaults su bu) os = Some c
      /\ ((c_cache_devices c = [] /\ c_backing_devices c = [])
          \/ (let '(o, _) := (if c_block_size c =? 0 then
                                b <- max_blocksize (c_block_size c) (c_cache_devices c) ;;
                                max_blocksize b (c_backing_devices c)
                              else ret (c_block_size c)) s in
              o = Exit \/ exists bs, o = Ok bs /\ c_bucket_size c < bs)
          \/ (c_data_offset c <> to_u64 (-1) /\ c_data_offset c < to_u64 (DOFF (c_sb_num c)))
          \/ (0 <= c_sb_idx c /\ length (c_backing_devices c) <> 1%nat))) ->
  main ck ug NMAX DOFF os s = (Exit, mk_state (st_devs s) (S (S (st_gen s))) (st_trace s)).
Proof.
  intros su bu H. rewrite main_unfold. fold su bu.
  set (s2 := mk_state (st_devs s) (S (S (st_gen s))) (st_trace s)).
  destruct (main_after_uuids_steps ck ug NMAX DOFF su bu os s2)
    as [E | (c & Ec & Hn & (bs & Ebs & Hb) & Hd & Hr)]; [exact E|].
  rewrite Ec in H. destruct H as [H | (c' & Ec' & H)]; [discriminate|].
  injection Ec' as <-.
  destruct H as [[H1 H2] | [H | [[H1 H2] | [H1 H2]]]].
  - destruct Hn; contradiction.
  - destruct (main_block_size_devs c s s2 eq_refl) as (o & E1 & E2).
    rewrite E1 in H. rewrite E2 in Ebs. injection Ebs as ->.
    destruct H as [H | (bs' & H & H')]; [discriminate | injection H as <-; lia].
  - destruct Hd; [contradiction | lia].
  - rewrite (Hr H1). destruct (c_backing_devices c) as [|d [|d' l]]; [reflexivity | simpl in H2; lia | reflexivity].
Qed.

Lemma main_refuses_witness :
  let s := mk_state (fun _ => mk_dev true (2 ^ 20) (fun _ => 0) (Some 1) true true 4096 4096) 0 [] in
  main ex_checksum ex_uuid_gen 8 (fun n => 16 + n * 8)
    [Optb (list_ascii_of_string "512"); OptB; OptDev "b"%string] s
  = (Exit, mk_state (st_devs s) (S (S (st_gen s))) (st_trace s)).
Proof.
  intros s. apply main_refuses. right. eexists. split; [reflexivity|].
  right. left. vm_compute. right. eexists. split; reflexivity.
Defined.





Lemma upd_backing_devices_twice c x y :
  upd_backing_devices (upd_backing_devices c x) y = upd_backing_devices c y.
Proof. destruct c; reflexivity. Qed.

Lemma process_opts_devs NMAX c ds :
  c_bdev c <> -1 ->
  process_opts NMAX c (map OptDev ds)
  = Some (if negb (c_bdev c =? 0)
          then upd_backing_devices c (c_backing_devices c ++ ds)
          else upd_cache_devices c (c_cache_devices c ++ ds)).
Proof.
  revert c; induction ds as [|d ds IH]; intros c Hb.
  - destruct (negb _); destruct c; cbn; rewrite app_nil_r; reflexivity.
  - cbn [map process_opts process_opt]. apply Z.eqb_neq in Hb as Hb'. rewrite Hb'.
    destruct (negb (c_bdev c =? 0)) eqn:E0.
    + rewrite IH by (destruct c; exact Hb). destruct c; cbn in *. rewrite E0, <- app_assoc. reflexivity.
    + rewrite IH by (destruct c; exact Hb). destruct c; cbn in *. rewrite E0, <- app_assoc. reflexivity.
Qed.

(** X8.  [-B] (or [-C]) followed by device names appends the names, in
    order, to the backing (or cache) device list and sets [bdev] to 1 (or
    0). *)
Theorem process_opts_devices NMAX c (backing : bool) ds :
  process_opts NMAX c ((if backing then OptB else OptC) :: map OptDev ds)
  = Some (if backing
          then upd_backing_devices (upd_bdev c 1) (c_backing_devices c ++ ds)
          else upd_cache_devices (upd_bdev c 0) (c_cache_devices c ++ ds)).
Proof.
  destruct backing; cbn [process_opts process_opt];
    rewrite process_opts_devs by (destruct c; cbn; discriminate); destruct c; reflexivity.
Qed.

Lemma process_opt_bdev NMAX c o c' :
  process_opt NMAX c o = Some c' -> o <> OptC -> o <> OptB -> c_bdev c' = c_bdev c.
Proof.
  intros E HC HB. destruct c, o; cbn [process_opt] in *; unfold option_map in E;
    repeat match goal with
           | E : context [match ?x with _ => _ end] |- _ => destruct x
           | E : context [if ?b then _ else _] |- _ => destruct b
           end; try discriminate; try congruence; injection E as <-; reflexivity.
Qed.

(** X9.  A device name given before any [-C] or [-B] makes option
    processing fail ([Please specify -C or -B]), whatever follows. *)
Theorem process_opts_device_before_role NMAX su bu pre name os :
  Forall (fun o => o <> OptC /\ o <> OptB) pre ->
  process_opts NMAX (main_defaults su bu) (pre ++ OptDev name :: os) = None.
Proof.
  assert (G : forall c, c_bdev c = -1 -> Forall (fun o => o <> OptC /\ o <> OptB) pre ->
              process_opts NMAX c (pre ++ OptDev name :: os) = None).
  { induction pre as [|o pre IH]; intros c Hc F.
    - cbn. rewrite Hc. reflexivity.
    - inversion F as [|? ? [HC HB] F']; subst. cbn [app process_opts].
      destruct (process_opt NMAX c o) as [c1|] eqn:E1; [|reflexivity].
      apply IH; [|exact F']. rewrite (process_opt_bdev _ _ _ _ E1 HC HB). exact Hc. }
  apply G. reflexivity.
Qed.

Lemma process_opts_device_before_role_witness :
  process_opts 8 (main_defaults (repeat 1 16) (repeat 2 16)) ([OptA] ++ OptDev "sda"%string :: [OptB])
  = None.
Proof.
  apply process_opts_device_before_role.
  constructor; [split; discriminate | constructor].
Defined.

(** X7.  With the policy [2^32 - 22] ([-EINVAL] as an [unsigned], what
    [main] stores for an unknown [--cache_replacement_policy] argument
    when the [strdup] of [read_string_list] succeeds), the flags of a cache
    record read back replacement policy 2 ([random]) and the discard bit
    given, but are not the flags of policy [random]: the setter does not
    mask the value, so bit 33 and other bits above the field are set
    (the setter is the [BITMASK] macro of bcache.h, modelled in
    [set_bits]). *)
Theorem cache_flags_unknown_policy bs bk su bu blocks disc :
  let r := cache_flags (cache_geometry (new_sb bs bk su false bu) blocks) disc (2 ^ 32 - EINVAL) in
  get_bits (sb_flags r) 2 3 = 2 /\ get_bits (sb_flags r) 1 1 = Z.b2z disc
  /\ sb_flags r <> Z.lor (Z.shiftl (Z.b2z disc) 1) (Z.shiftl 2 2)
  /\ Z.testbit (sb_flags r) 33 = true.
Proof. destruct disc; vm_compute; repeat split; congruence. Qed.

Lemma SB_START_le_secondary k : SB_START <= SB_OFFSET (1 + Z.of_nat k).
Proof. unfold SB_OFFSET, SB_START, SB_SECTOR. rewrite !Z.shiftl_mul_pow2 by lia. lia. Qed.

(** A successful [write_sb]: the zeroed head, the marker, then writes at
    or after [SB_START] only. *)
Lemma write_sb_head ck ug alc skip dev bs bk wb disc wipe pol doff su bdev bu dirty N s s' :
  write_sb ck ug alc skip dev bs bk wb disc wipe pol doff su bdev bu dirty N s = (Ok tt, s') ->
  SB_START <= d_size (st_devs s dev)
  /\ st_devs s' = st_devs s
  /\ exists post, Forall (fun w => SB_START <= w_off w) post
     /\ st_trace s' = st_trace s ++ [mk_write dev 0 (PZeros SB_START)]
                      ++ (if alc then [mk_write dev 0 (PMarker "alcubierre"%string)]
                          else if skip then [mk_write dev 0 (PMarker "##skipudev"%string)]
                          else [])
                      ++ post.
Proof.
  intros H. unfold write_sb in H.
  apply bind_ok in H as (? & s1 & H1 & H). apply open_excl_ok in H1; subst s1.
  apply bind_ok in H as (old & s2 & H2 & H). apply pread_sb_ok in H2 as [-> _].
  apply bind_ok in H as (? & s3 & H3 & H). apply when_exit_ok in H3 as [-> _].
  apply bind_ok in H as (? & s4 & H4 & H). apply blkid_check_ok in H4; subst s4.
  apply bind_ok in H as (sb & s5 & H5 & H).
  assert (Hsb : s5 = s /\ 0 <= sb_bucket_size sb
                /\ (SB_IS_BDEV sb = false -> 0 < sb_bucket_size sb < U16
                    /\ sb_first_bucket sb = (23 / sb_bucket_size sb + 1) mod U16)).
  { rewrite SB_IS_BDEV_new_sb in H5. destruct bdev.
    - destruct (_ <? _) in H5; [apply exit_not_ok in H5; contradiction|].
      apply ret_ok in H5 as [-> ->]. split; [reflexivity|]. split.
      + unfold backing_setup. destruct dirty, wb, (negb _); cbn; apply Z.mod_pos_bound; reflexivity.
      + intros HB. exfalso. unfold backing_setup in HB. destruct dirty, wb, (negb _); discriminate HB.
    - apply bind_ok in H5 as (blocks & s5' & G5 & H5). apply getblocks_ok in G5 as [-> ->].
      destruct (_ =? 0) eqn:Eb in H5; [apply exit_not_ok in H5; contradiction|].
      destruct (_ <? _) in H5; [apply exit_not_ok in H5; contradiction|].
      apply ret_ok in H5 as [-> ->]. cbn in Eb |- *. apply Z.eqb_neq in Eb.
      pose proof (Z.mod_pos_bound bk U16 ltac:(reflexivity)).
      change U16 with 65536 in *. split; [reflexivity|]. split; [lia|]. intros _. split; [lia|]. reflexivity. }
  destruct Hsb as (-> & Hb0 & Hjc).
  apply bind_ok in H as (? & s6 & H6 & H).
  assert (Hsz : SB_START <= d_size (st_devs s dev)).
  { unfold pwrite in H6. destruct (_ && _) eqn:C in H6; [|discriminate].
    apply andb_prop in C as [_ C]. apply Z.leb_le in C. cbn in C.
    rewrite repeat_length in C. change (Z.of_nat (Pos.to_nat 4096)) with 4096 in C. change SB_START with 4096. lia. }
  apply pwrite_ok in H6; subst s6.
  set (sb0 := with_csum sb (csum_set ck sb)) in *.
  apply bind_ok in H as (? & s7 & H7 & H).
  assert (E7 : st_devs s7 = st_devs s /\ st_gen s7 = st_gen s
               /\ st_trace s7 = st_trace s ++ [mk_write dev 0 (PZeros SB_START)]
                   ++ (if alc then [mk_write dev 0 (PMarker "alcubierre"%string)]
                       else if skip then [mk_write dev 0 (PMarker "##skipudev"%string)]
                       else [])).
  { destruct alc; [|destruct skip].
    1,2: apply pwrite_ok in H7; subst s7; cbn; rewrite <- app_assoc; auto.
    apply ret_ok in H7 as [-> _]. cbn. rewrite ?app_nil_r. auto. }
  destruct E7 as (D7 & G7 & T7).
  assert (HT : hoare (fun w => SB_START <= w_off w) (fun _ => True)
                 (pwrite dev SB_START (PSb sb0) ;;;
                  (if SB_IS_BDEV sb0 then write_secondaries ck ug dev sb0 1 (Z.to_nat (N - 1))
                   else zero_journal dev sb0) ;;; ret tt)).
  { eapply hoare_bind; [apply hoare_pwrite; cbn; lia | intros _ _].
    eapply hoare_bind; [| intros _ _; apply hoare_ret; exact I].
    destruct (SB_IS_BDEV sb0) eqn:HB.
    - apply hoare_write_secondaries. intros k u v. apply SB_START_le_secondary.
    - assert (HB' : SB_IS_BDEV sb = false) by (destruct sb; exact HB).
      destruct (Hjc HB') as [Hbk Hfb].
      assert (Hb : 0 <= sb_bucket_size sb0) by (destruct sb; cbn in *; lia).
      eapply hoare_weaken; [| intros _ _; exact I | apply (hoare_zero_journal dev sb0 Hb)].
      intros w (_ & Hw & _). pose proof (journal_after_primary sb0) as J.
      assert (Eb : sb_bucket_size sb0 = sb_bucket_size sb) by (destruct sb; reflexivity).
      assert (Ef : sb_first_bucket sb0 = sb_first_bucket sb) by (destruct sb; reflexivity).
      rewrite Eb in J. rewrite Ef, Hfb in Hw.
      specialize (J ltac:(lia)). unfold sizeof_cache_sb, SB_JOURNAL_BUCKETS in J. lia. }
  specialize (HT s7). rewrite H in HT. destruct HT as (D & (post & T & F) & _).
  split; [exact Hsz|]. split; [congruence|]. exists post. split; [exact F|].
  rewrite T, T7, <- !app_assoc. reflexivity.
Qed.

Lemma write_sb_head_bytes ck ug alc skip dev bs bk wb disc wipe pol doff su bdev bu dirty N s s' :
  write_sb ck ug alc skip dev bs bk wb disc wipe pol doff su bdev bu dirty N s = (Ok tt, s') ->
  SB_START <= d_size (st_devs s' dev)
  /\ read_bytes (disk s' dev) 0 10
     = if alc then str_bytes "alcubierre" else if skip then str_bytes "##skipudev" else repeat 0 10.
Proof.
  intros H. destruct (write_sb_head _ _ _ _ _ _ _ _ _ _ _ _ _ _ _ _ _ _ _ H) as (Hsz & D & post & F & T).
  split; [rewrite D; exact Hsz|].
  unfold disk. rewrite D, T, apply_trace_app, app_assoc, apply_trace_app.
  set (d0 := apply_trace dev (st_trace s) (d_data (st_devs s dev))).
  rewrite (read_bytes_ext _ (apply_trace dev ([mk_write dev 0 (PZeros SB_START)]
              ++ (if alc then [mk_write dev 0 (PMarker "alcubierre"%string)]
                  else if skip then [mk_write dev 0 (PMarker "##skipudev"%string)] else [])) d0)).
  - destruct alc; [|destruct skip]; unfold apply_trace; cbn [fold_left app w_dev w_off w_payload];
      rewrite String.eqb_refl; vm_compute; reflexivity.
  - intros k Hk. apply apply_trace_frame. eapply Forall_impl; [|exact F].
    intros w Hw. unfold misses. right. left. unfold SB_START, SB_SECTOR in Hw. cbn in Hw. lia.
Qed.

(** X11.  After a successful [write_sb], the first 10 bytes of the
    device are [alcubierre] with [-A], [##skipudev] with [-S] only, and
    zeros otherwise. *)
Theorem write_sb_marker ck ug alc skip dev bs bk wb disc wipe pol doff su bdev bu dirty N s s' :
  write_sb ck ug alc skip dev bs bk wb disc wipe pol doff su bdev bu dirty N s = (Ok tt, s') ->
  read_bytes (disk s' dev) 0 10
  = if alc then str_bytes "alcubierre" else if skip then str_bytes "##skipudev" else repeat 0 10.
Proof. intros H. exact (proj2 (write_sb_head_bytes _ _ _ _ _ _ _ _ _ _ _ _ _ _ _ _ _ _ _ H)). Qed.

Lemma write_sb_marker_witness :
  read_bytes (disk (snd (write_sb ex_checksum ex_uuid_gen true false "c"%string 1 8 false true false 0 16
                           (repeat 1 16) false (repeat 2 16) false 1 ex_state)) "c"%string) 0 10
  = str_bytes "alcubierre".
Proof.
  apply (write_sb_marker ex_checksum ex_uuid_gen true false "c"%string 1 8 false true false 0 16
           (repeat 1 16) false (repeat 2 16) false 1 ex_state).
  vm_compute. reflexivity.
Defined.


(** X16.  After a successful [write_sb] on a device, [alcubierre-check]
    on that device prints [ALCUBIERRE_DEV=yes] exactly when [-A] was
    given, and the first line of [bcache-check] is [SKIPREGISTER_DEV=yes]
    exactly when [-A] or [-S] was given. *)
Theorem checkers_after_write_sb ck ug alc skip dev bs bk wb disc wipe pol doff su bdev bu dirty N s s'
    prog is_path_exist calloc_ok :
  write_sb ck ug alc skip dev bs bk wb disc wipe pol doff su bdev bu dirty N s = (Ok tt, s') ->
  alcubierre_check [prog; dev] (read10_of s')
  = ([if alc then "ALCUBIERRE_DEV=yes"%string else "ALCUBIERRE_DEV=no"%string], 0)
  /\ hd EmptyString (fst (bcache_check [prog; dev] (read10_of s') is_path_exist calloc_ok))
     = if alc || skip then "SKIPREGISTER_DEV=yes"%string else "SKIPREGISTER_DEV=no"%string.
Proof.
  intros H. destruct (write_sb_head_bytes _ _ _ _ _ _ _ _ _ _ _ _ _ _ _ _ _ _ _ H) as [Hsz Hb].
  assert (R : read10_of s' dev
              = Some (if alc then str_bytes "alcubierre" else if skip then str_bytes "##skipudev"
                      else repeat 0 10)).
  { unfold read10_of. rewrite Z.min_l by (unfold SB_START, SB_SECTOR in Hsz; cbn in Hsz; lia).
    rewrite <- Hb. reflexivity. }
  unfold alcubierre_check, bcache_check. rewrite R.
  split.
  - destruct alc; [|destruct skip]; reflexivity.
  - destruct (sscanf_dev dev) as [name|].
    + destruct (get_parent_device is_path_exist calloc_ok name) as [r dv].
      destruct alc; [|destruct skip]; reflexivity.
    + destruct alc; [|destruct skip]; reflexivity.
Qed.

Lemma checkers_after_write_sb_witness :
  alcubierre_check ["disk-check"; "c"]%string
    (read10_of (snd (write_sb ex_checksum ex_uuid_gen true false "c"%string 1 8 false true false 0 16
                       (repeat 1 16) false (repeat 2 16) false 1 ex_state)))
  = (["ALCUBIERRE_DEV=yes"%string], 0)
  /\ hd EmptyString (fst (bcache_check ["disk-check"; "c"]%string
        (read10_of (snd (write_sb ex_checksum ex_uuid_gen true false "c"%string 1 8 false true false 0 16
                           (repeat 1 16) false (repeat 2 16) false 1 ex_state))) ex_sysfs true))
     = "SKIPREGISTER_DEV=yes"%string.
Proof.
  apply (checkers_after_write_sb ex_checksum ex_uuid_gen true false "c"%string 1 8 false true false 0 16
           (repeat 1 16) false (repeat 2 16) false 1 ex_state).
  vm_compute. reflexivity.
Defined.


Lemma apply_trace_zeros dev tr d a :
  Forall (fun w => exists len, w_payload w = PZeros len) tr -> d a = 0 ->
  apply_trace dev tr d a = 0.
Proof.
  revert d; induction tr as [|w tr IH]; intros d H Hd; [exact Hd|].
  inversion H as [|? ? (len & Hw) Htr]; subst.
  change (apply_trace dev (w :: tr) d) with
    (apply_trace dev tr (if String.eqb (w_dev w) dev
                         then apply_write d (w_off w) (payload_bytes (w_payload w)) else d)).
  apply IH; [exact Htr|].
  destruct (String.eqb (w_dev w) dev); [|exact Hd].
  unfold apply_write. rewrite Hw. cbn [payload_bytes].
  destruct (_ && _); [|exact Hd].
  destruct (Nat.lt_ge_cases (Z.to_nat (a - w_off w)) (Z.to_nat len)).
  - rewrite nth_repeat_lt by exact H0. reflexivity.
  - apply nth_overflow. rewrite repeat_length. exact H0.
Qed.

(** A run of zero writes keeps a zero byte zero. *)
Lemma hoare_zero_keeps {A} dev lo (Q : A -> Prop) m s o s' a :
  hoare (zero_write dev lo) Q m -> m s = (o, s') -> disk s dev a = 0 -> disk s' dev a = 0.
Proof.
  intros Hm E Ha. specialize (Hm s). rewrite E in Hm. destruct Hm as (D & (new & T & F) & _).
  unfold disk in *. rewrite D, T, apply_trace_app. apply apply_trace_zeros; [|exact Ha].
  eapply Forall_impl; [|exact F]. intros w (_ & _ & H). exact H.
Qed.

Lemma zero_range_covers dev off end_ fuel s s' a :
  zero_range dev off end_ fuel s = (Ok tt, s') ->
  off <= a < end_ -> a < off + SB_START * Z.of_nat fuel ->
  disk s' dev a = 0.
Proof.
  revert off s; induction fuel as [|f IH]; intros off s H Ha Hf.
  - cbn in Hf. lia.
  - cbn [zero_range] in H. destruct (off <? end_) eqn:C; [|apply Z.ltb_ge in C; lia].
    apply Z.ltb_lt in C.
    apply bind_ok in H as (? & s1 & H1 & H).
    set (len := Z.min (end_ - off) SB_START) in *.
    assert (Hl : 0 <= len) by (unfold len; change SB_START with 4096 in *; lia).
    destruct (Z.lt_ge_cases a (off + len)) as [Hin|Hout].
    + apply pwrite_ok in H1; subst s1.
      eapply (hoare_zero_keeps dev off); [apply hoare_zero_range | exact H |]; [lia|].
      rewrite disk_snoc by reflexivity. cbn [w_off w_payload payload_bytes].
      unfold apply_write. rewrite repeat_length, Z2Nat.id by exact Hl.
      replace ((off <=? a) && (a <? off + len)) with true
        by (symmetry; apply andb_true_intro; split; [apply Z.leb_le|apply Z.ltb_lt]; lia).
      apply nth_repeat_lt. lia.
    + apply pwrite_ok in H1; subst s1.
      assert (len = SB_START) by (unfold len in *; lia).
      eapply IH; [exact H | lia |]. rewrite Nat2Z.inj_succ in Hf. lia.
Qed.

Lemma zero_buckets_covers dev sb i n s s' a :
  0 <= sb_bucket_size sb ->
  zero_buckets dev sb i n s = (Ok tt, s') ->
  bucket_to_offset sb i <= a < bucket_to_offset sb (i + Z.of_nat n) ->
  disk s' dev a = 0.
Proof.
  intros Hb. revert i s; induction n as [|n IH]; intros i s H Ha.
  - rewrite Z.add_0_r in Ha. lia.
  - cbn [zero_buckets] in H. apply bind_ok in H as (? & s1 & H1 & H).
    destruct (Z.lt_ge_cases a (bucket_to_offset sb (i + 1))) as [Hin|Hout].
    + eapply (hoare_zero_keeps dev (bucket_to_offset sb (i + 1)));
        [apply hoare_zero_buckets | exact H |]; [exact Hb | lia |].
      destruct x. eapply zero_range_covers; [exact H1 | lia |].
      set (x := bucket_to_offset sb (i + 1) - bucket_to_offset sb i).
      assert (Hx : 0 < x) by (unfold x; lia).
      pose proof (Z.div_mod x SB_START ltac:(unfold SB_START, SB_SECTOR; cbn; lia)).
      pose proof (Z.mod_pos_bound x SB_START ltac:(unfold SB_START, SB_SECTOR; cbn; lia)).
      assert (0 <= x / SB_START) by (apply Z.div_pos; unfold SB_START, SB_SECTOR in *; cbn in *; lia).
      rewrite Z2Nat.id by lia. fold x. lia.
    + eapply (IH (i + 1)); [exact H|]. rewrite Nat2Z.inj_succ in Ha.
      replace (i + 1 + Z.of_nat n) with (i + Z.succ (Z.of_nat n)) by lia. lia.
Qed.

Lemma zero_journal_covers dev sb s s' a :
  0 <= sb_bucket_size sb ->
  zero_journal dev sb s = (Ok tt, s') ->
  bucket_to_offset sb (sb_first_bucket sb) <= a
  < bucket_to_offset sb (Z.min (sb_nbuckets sb) (sb_first_bucket sb + SB_JOURNAL_BUCKETS)) ->
  disk s' dev a = 0.
Proof.
  intros Hb H Ha. unfold zero_journal in H. eapply zero_buckets_covers; [exact Hb | exact H |].
  set (e := Z.min (sb_nbuckets sb) (sb_first_bucket sb + SB_JOURNAL_BUCKETS)) in *.
  destruct (Z.le_gt_cases (sb_first_bucket sb) e).
  - rewrite Z2Nat.id by lia. replace (sb_first_bucket sb + (e - sb_first_bucket sb)) with e by lia.
    exact Ha.
  - pose proof (bucket_to_offset_mono sb e (sb_first_bucket sb) Hb ltac:(lia)). lia.
Qed.

(** A successful format of a cache device ends with the journal zeroing
    of its primary record. *)
Lemma write_sb_cache_run ck ug alc skip dev bs bk wb disc wipe pol doff su bu dirty N s s' :
  write_sb ck ug alc skip dev bs bk wb disc wipe pol doff su false bu dirty N s = (Ok tt, s') ->
  let Y := cache_flags (cache_geometry (new_sb bs bk su false bu)
                          (to_u64 (d_size (st_devs s dev) / 512))) disc pol in
  let sb0 := with_csum Y (csum_set ck Y) in
  bk mod U16 <> 0 /\ exists s9, zero_journal dev sb0 s9 = (Ok tt, s').
Proof.
  intros H Y sb0. unfold write_sb in H.
  apply bind_ok in H as (? & s1 & H1 & H). apply open_excl_ok in H1; subst s1.
  apply bind_ok in H as (old & s2 & H2 & H). apply pread_sb_ok in H2 as [-> _].
  apply bind_ok in H as (? & s3 & H3 & H). apply when_exit_ok in H3 as [-> _].
  apply bind_ok in H as (? & s4 & H4 & H). apply blkid_check_ok in H4; subst s4.
  apply bind_ok in H as (sb & s5 & H5 & H).
  replace (SB_IS_BDEV (new_sb bs bk su false bu)) with false in H5 by reflexivity.
  apply bind_ok in H5 as (blocks & s5' & G5 & H5). apply getblocks_ok in G5 as [-> ->].
  destruct (_ =? 0) eqn:Eb in H5; [apply exit_not_ok in H5; contradiction|].
  destruct (_ <? _) in H5; [apply exit_not_ok in H5; contradiction|].
  apply ret_ok in H5 as [-> ->]. fold Y in H. fold sb0 in H.
  apply bind_ok in H as (? & s6 & H6 & H).
  apply bind_ok in H as (? & s7 & H7 & H).
  apply bind_ok in H as (? & s8 & H8 & H).
  apply bind_ok in H as (? & s9 & H9 & H). apply ret_ok in H as [-> _].
  replace (SB_IS_BDEV sb0) with false in H9 by reflexivity.
  split; [cbn in Eb; apply Z.eqb_neq in Eb; exact Eb | exists s8; match type of H9 with _ = (Ok ?u, _) => destruct u end; exact H9].
Qed.

(** X12.  After a successful format of a cache device, every byte of
    the journal buckets, from bucket [first_bucket] up to
    [min(nbuckets, first_bucket + SB_JOURNAL_BUCKETS)], is zero. *)
Theorem write_sb_journal_zeroed ck ug alc skip dev bs bk wb disc wipe pol doff su bu dirty N s s' a :
  write_sb ck ug alc skip dev bs bk wb disc wipe pol doff su false bu dirty N s = (Ok tt, s') ->
  let bucket := bk mod U16 in
  let first := 23 / bucket + 1 in
  let nbuckets := to_u64 (d_size (st_devs s dev) / 512) / bucket in
  512 * bucket * first <= a < 512 * bucket * Z.min nbuckets (first + SB_JOURNAL_BUCKETS) ->
  disk s' dev a = 0.
Proof.
  intros H bucket first nbuckets Ha.
  destruct (write_sb_cache_run _ _ _ _ _ _ _ _ _ _ _ _ _ _ _ _ _ _ H) as [Hbk [s9 Hj]].
  fold bucket in Hbk.
  pose proof (Z.mod_pos_bound bk U16 ltac:(reflexivity)) as Hb. fold bucket in Hb.
  eapply zero_journal_covers; [| exact Hj |].
  - cbn -[U16]. fold bucket. lia.
  - assert (Hq : 0 <= 23 / bucket <= 23)
      by (split; [apply Z.div_pos | apply Z.div_le_upper_bound]; lia).
    assert (Hn : 0 <= nbuckets < U64).
    { unfold nbuckets, to_u64. pose proof (Z.mod_pos_bound (d_size (st_devs s dev) / 512) U64 ltac:(reflexivity)).
      split; [apply Z.div_pos; lia|].
      apply Z.le_lt_trans with ((d_size (st_devs s dev) / 512) mod U64); [|lia].
      apply Z.div_le_upper_bound; nia. }
    unfold bucket_to_offset, sb_nbuckets. cbn -[U16 U64 to_u64 Z.shiftl Z.mul Z.div Z.add Z.min].
    fold bucket.
    rewrite (Z.mod_small (23 / bucket + 1)) by (change U16 with 65536; lia).
    fold first. change (to_u64 (d_size (st_devs s dev) / 512) / bucket) with nbuckets.
    rewrite (Z.mod_small nbuckets) by lia.
    rewrite !Z.shiftl_mul_pow2 by lia. change (2 ^ 9) with 512.
    replace (first * bucket * 512) with (512 * bucket * first) by ring.
    replace (Z.min nbuckets (first + SB_JOURNAL_BUCKETS) * bucket * 512)
      with (512 * bucket * Z.min nbuckets (first + SB_JOURNAL_BUCKETS)) by ring.
    exact Ha.
Qed.

Lemma write_sb_journal_zeroed_witness :
  disk ex_cache_formatted "c"%string 12288 = 0.
Proof.
  apply (write_sb_journal_zeroed ex_checksum ex_uuid_gen false false "c"%string 1 8 false true false 0 16
           (repeat 1 16) (repeat 2 16) false 1 ex_state ex_cache_formatted 12288).
  - unfold ex_cache_formatted. vm_compute. reflexivity.
  - split; [apply Z.leb_le | apply Z.ltb_lt]; vm_compute; reflexivity.
Defined.


Lemma list_ascii_of_string_append a b :
  list_ascii_of_string (a ++ b) = list_ascii_of_string a ++ list_ascii_of_string b.
Proof. induction a as [|c a IH]; simpl; [reflexivity | now rewrite IH]. Qed.

Lemma strip_prefix_app p s : strip_prefix p (p ++ s) = Some s.
Proof. induction p as [|c p IH]; simpl; [reflexivity | now rewrite Ascii.eqb_refl]. Qed.

Lemma take_nonspace_all l :
  Forall (fun c => isspace c = false) l -> take_nonspace l = l.
Proof. induction 1 as [|c l Hc _ IH]; simpl; [reflexivity | now rewrite Hc, IH]. Qed.

(** X17.  [sscanf(node, "/dev/%s", bdev_name)] in bcache-check reads
    back the device name of [/dev/<name>] when the name is non-empty and
    has no white space. *)
Theorem sscanf_dev_name name :
  name <> EmptyString ->
  Forall (fun c => isspace c = false) (list_ascii_of_string name) ->
  sscanf_dev ("/dev/" ++ name) = Some name.
Proof.
  intros Hn Hs. unfold sscanf_dev.
  rewrite list_ascii_of_string_append, strip_prefix_app.
  destruct name as [|c t]; [congruence|].
  inversion Hs as [|? ? Hc Ht]; subst. cbn [list_ascii_of_string skip_spaces]. rewrite Hc.
  rewrite (take_nonspace_all (c :: list_ascii_of_string t)) by (constructor; assumption).
  change (Some (string_of_list_ascii (list_ascii_of_string (String c t))) = Some (String c t)).
  now rewrite string_of_list_ascii_of_string.
Qed.

Lemma sscanf_dev_name_witness :
  sscanf_dev "/dev/sda1" = Some "sda1"%string.
Proof. apply (sscanf_dev_name "sda1"%string); [discriminate | repeat constructor]. Defined.
